(** * Raffle: a shallow embedding of the lottery contract

    The contract [Raffle] (Solidity ^0.8.7) is embedded function by function.
    Storage and immutables are the fields of one record, the body of every
    Solidity function is a computation in a small state-and-revert monad,
    and a transaction either commits the state its body ends in or, when the
    body reverts, leaves the state it started from.

    Conventions.
    - [uint256], [address], [bytes32], [uint64], [uint32] are natural numbers
      ([N]).  The contract never adds or multiplies; its only arithmetic is
      one checked subtraction and one modulo, both written out below with
      the panic that Solidity 0.8 raises.
    - [bytes] and revert reasons are strings.
    - The outside world is an [Env]: the block, the message, and the answers
      of the two external calls the contract makes (the value transfer to the
      winner and the request to the VRF coordinator).  The callee of the
      value transfer is taken not to call back into the contract.
    - Every external interaction and every emitted event is appended to a
      trace, which is kept also when the body reverts, so that one can say
      what a failed call did not do. *)

From Stdlib Require Import NArith ZArith List String Bool Lia.
Import ListNotations.
Local Open Scope N_scope.

(** ** Solidity value types *)

Definition uint256 := N.
Definition address := N.
Definition bytes32 := N.
Definition uint64 := N.
Definition uint32 := N.
Definition uint16 := N.
Definition bytes := string.

(** [enum RaffleState { OPEN, CALCULATING }] *)
Inductive RaffleState : Type :=
| OPEN
| CALCULATING.

(** [uint256(s_raffleState)]: 0 = OPEN, 1 = CALCULATING. *)
Definition RaffleState_to_uint256 (s : RaffleState) : uint256 :=
  match s with
  | OPEN => 0
  | CALCULATING => 1
  end.

Definition RaffleState_eqb (a b : RaffleState) : bool :=
  match a, b with
  | OPEN, OPEN => true
  | CALCULATING, CALCULATING => true
  | _, _ => false
  end.

(** ** Errors, events and external interactions *)

(** The custom errors declared at the top of the contract, the
    [Error(string)] of a failed [require], the compiler-inserted
    [Panic(uint256)], a revert bubbling up from the coordinator, and the
    revert without data of a function that is not [payable] and is called
    with value. *)
Inductive Error : Type :=
| NotEnoughETHEntered
| TransferFailed
| NotOpen
| UpkeepNotNeeded (currentBalance numPlayers raffleState passedTime : uint256)
| ErrorString (reason : string)
| Panic (code : N)
| CoordinatorReverted
| EmptyRevert.

(** Panic codes used by the compiler for the operations of this contract. *)
Definition PANIC_ARITHMETIC : N := 17.      (* 0x11: checked - underflows  *)
Definition PANIC_DIV_BY_ZERO : N := 18.     (* 0x12: % by zero             *)
Definition PANIC_OUT_OF_BOUNDS : N := 50.   (* 0x32: array index too large *)

Inductive Event : Type :=
| RaffleEnter (player : address)
| RequestedRaffleWinner (requestId : uint256)
| WinnerPicked (winner : address).

Inductive Effect : Type :=
| Emit (e : Event)
| CallValue (to : address) (value : uint256)
| RequestRandomWords (keyHash : bytes32) (subId : uint64)
    (minimumRequestConfirmations : uint16) (callbackGasLimit : uint32)
    (numWords : uint32).

(** ** Contract state *)

(** The variables of the contract in declaration order, and the balance of
    the contract's account ([address(this).balance]). *)
Record Raffle : Type := mkRaffle {
  i_entranceFee : uint256;
  s_players : list address;
  s_recentWinner : address;
  i_vrfCoordinator : address;
  i_keyHash : bytes32;
  i_subscriptionId : uint64;
  i_callbackGasLimit : uint32;
  s_raffleState : RaffleState;
  i_interval : uint256;
  s_lastTimeStamp : uint256;
  balance : uint256
}.

Definition REQUEST_CONFIRMATIONS : uint16 := 3.
Definition NUM_WORDS : uint32 := 1.

Definition set_players (v : list address) (c : Raffle) : Raffle :=
  mkRaffle (i_entranceFee c) v (s_recentWinner c) (i_vrfCoordinator c)
    (i_keyHash c) (i_subscriptionId c) (i_callbackGasLimit c)
    (s_raffleState c) (i_interval c) (s_lastTimeStamp c) (balance c).

Definition set_recentWinner (v : address) (c : Raffle) : Raffle :=
  mkRaffle (i_entranceFee c) (s_players c) v (i_vrfCoordinator c)
    (i_keyHash c) (i_subscriptionId c) (i_callbackGasLimit c)
    (s_raffleState c) (i_interval c) (s_lastTimeStamp c) (balance c).

Definition set_raffleState (v : RaffleState) (c : Raffle) : Raffle :=
  mkRaffle (i_entranceFee c) (s_players c) (s_recentWinner c)
    (i_vrfCoordinator c) (i_keyHash c) (i_subscriptionId c)
    (i_callbackGasLimit c) v (i_interval c) (s_lastTimeStamp c) (balance c).

Definition set_lastTimeStamp (v : uint256) (c : Raffle) : Raffle :=
  mkRaffle (i_entranceFee c) (s_players c) (s_recentWinner c)
    (i_vrfCoordinator c) (i_keyHash c) (i_subscriptionId c)
    (i_callbackGasLimit c) (s_raffleState c) (i_interval c) v (balance c).

Definition set_balance (v : uint256) (c : Raffle) : Raffle :=
  mkRaffle (i_entranceFee c) (s_players c) (s_recentWinner c)
    (i_vrfCoordinator c) (i_keyHash c) (i_subscriptionId c)
    (i_callbackGasLimit c) (s_raffleState c) (i_interval c)
    (s_lastTimeStamp c) v.

(** [s_players.length] *)
Definition players_length (c : Raffle) : uint256 :=
  N.of_nat (List.length (s_players c)).

(** ** The environment of a call *)

Record Env : Type := mkEnv {
  block_timestamp : uint256;
  msg_sender : address;
  msg_value : uint256;
  (** does the account [to] accept a plain call carrying [value]? *)
  call_success : address -> uint256 -> bool;
  (** the request id the coordinator answers with; [None] when it reverts *)
  vrf_requestId : option uint256
}.

(** ** The monad of function bodies *)

Inductive Outcome (A : Type) : Type :=
| Ok (a : A) (c : Raffle) (tr : list Effect)
| Revert (e : Error) (tr : list Effect).

Arguments Ok {A} a c tr.
Arguments Revert {A} e tr.

Definition M (A : Type) : Type := Raffle -> Outcome A.

Definition ret {A} (a : A) : M A := fun c => Ok a c [].

Definition bind {A B} (m : M A) (k : A -> M B) : M B :=
  fun c =>
    match m c with
    | Ok a c1 tr1 =>
        match k a c1 with
        | Ok b c2 tr2 => Ok b c2 (tr1 ++ tr2)
        | Revert e tr2 => Revert e (tr1 ++ tr2)
        end
    | Revert e tr1 => Revert e tr1
    end.

Declare Scope sol_scope.
Delimit Scope sol_scope with sol.
Notation "x <- m ;; k" := (bind m (fun x => k))
  (at level 61, m at next level, right associativity) : sol_scope.
Notation "m ;; k" := (bind m (fun _ => k))
  (at level 61, right associativity) : sol_scope.
Local Open Scope sol_scope.

Definition get : M Raffle := fun c => Ok c c [].
Definition modify (f : Raffle -> Raffle) : M unit := fun c => Ok tt (f c) [].
Definition revert {A} (e : Error) : M A := fun _ => Revert e [].
Definition effect (x : Effect) : M unit := fun c => Ok tt c [x].
Definition emit (e : Event) : M unit := effect (Emit e).

(** [require(cond, reason)] *)
Definition require (cond : bool) (reason : string) : M unit :=
  if cond then ret tt else revert (ErrorString reason).

(** [if (cond) revert E();] *)
Definition revert_if (cond : bool) (e : Error) : M unit :=
  if cond then revert e else ret tt.

(** [a - b] on uint256, checked. *)
Definition checked_sub (a b : uint256) : M uint256 :=
  if a <? b then revert (Panic PANIC_ARITHMETIC) else ret (a - b).

(** [a % b] on uint256. *)
Definition checked_mod (a b : uint256) : M uint256 :=
  if b =? 0 then revert (Panic PANIC_DIV_BY_ZERO) else ret (a mod b).

(** [arr[i]] *)
Definition index {A} (arr : list A) (i : uint256) : M A :=
  match nth_error arr (N.to_nat i) with
  | Some x => ret x
  | None => revert (Panic PANIC_OUT_OF_BOUNDS)
  end.

(** [a && b], the right operand evaluated only when the left one is true. *)
Definition and_then (a b : M bool) : M bool :=
  x <- a ;; if x then b else ret false.
Notation "a &&& b" := (and_then a b)
  (at level 40, left associativity) : sol_scope.

(** A [payable] function is entered with [msg.value] already credited. *)
Definition payable (env : Env) : M unit :=
  modify (fun c => set_balance (balance c + msg_value env) c).

(** An external function that is not [payable] refuses a call that
    carries value: it reverts, with no data, before its body runs. *)
Definition nonpayable (env : Env) : M unit :=
  revert_if (negb (msg_value env =? 0)) EmptyRevert.

(** [(bool ok, ) = payable(to).call{value: v}(empty)]: on success the value
    leaves the contract, on failure nothing moves and [ok] is false. *)
Definition call_value (env : Env) (to : address) (v : uint256) : M bool :=
  effect (CallValue to v) ;;
  if call_success env to v
  then modify (fun c => set_balance (balance c - v) c) ;; ret true
  else ret false.

(** [i_vrfCoordinator.requestRandomWords(...)]: a revert of the callee
    bubbles up. *)
Definition requestRandomWords (env : Env) (keyHash : bytes32) (subId : uint64)
    (confs : uint16) (gasLimit : uint32) (numWords : uint32) : M uint256 :=
  effect (RequestRandomWords keyHash subId confs gasLimit numWords) ;;
  match vrf_requestId env with
  | Some requestId => ret requestId
  | None => revert CoordinatorReverted
  end.

(** ** The contract *)

(** [constructor(vrfCoordinatorV2, _entranceFee, _keyHash, _subscriptionId,
    _callbackGasLimit, _interval)].  Storage not assigned keeps its zero
    value; [funds] is what the account already held when the code was
    deployed to it. *)
Definition constructor (env : Env) (vrfCoordinatorV2 : address)
    (_entranceFee : uint256) (_keyHash : bytes32) (_subscriptionId : uint64)
    (_callbackGasLimit : uint32) (_interval : uint256) (funds : uint256)
    : Raffle :=
  {| i_vrfCoordinator := vrfCoordinatorV2;
     i_entranceFee := _entranceFee;
     i_keyHash := _keyHash;
     i_subscriptionId := _subscriptionId;
     i_callbackGasLimit := _callbackGasLimit;
     i_interval := _interval;
     s_raffleState := OPEN;
     s_lastTimeStamp := block_timestamp env;
     s_players := [];
     s_recentWinner := 0;
     balance := funds |}.

(** [function enterRaffle() public payable] *)
Definition enterRaffle (env : Env) : M unit :=
  payable env ;;
  c <- get ;;
  revert_if (msg_value env <? i_entranceFee c) NotEnoughETHEntered ;;
  revert_if (RaffleState_eqb (s_raffleState c) CALCULATING) NotOpen ;;
  modify (fun c => set_players (s_players c ++ [msg_sender env]) c) ;;
  emit (RaffleEnter (msg_sender env)).

(** [function checkUpkeep(bytes memory) public view override
      returns (bool upkeepNeeded, bytes memory)] *)
Definition checkUpkeep (env : Env) (checkData : bytes) : M (bool * bytes) :=
  c <- get ;;
  let upkeepNeeded := false in
  cond <- ret (RaffleState_eqb (s_raffleState c) OPEN)
          &&& (passed <- checked_sub (block_timestamp env)
                           (s_lastTimeStamp c) ;;
               ret (i_interval c <? passed))
          &&& ret (0 <? players_length c)
          &&& ret (0 <? balance c) ;;
  let upkeepNeeded := if cond then true else upkeepNeeded in
  ret (upkeepNeeded, "0x0"%string).

(** [function performUpkeep(bytes calldata) external override]: external
    and not payable, so the value check comes first. *)
Definition performUpkeep (env : Env) (performData : bytes) : M unit :=
  nonpayable env ;;
  r <- checkUpkeep env EmptyString ;;
  let upkeepNeeded := fst r in
  (if negb upkeepNeeded
   then c <- get ;;
        passedTime <- checked_sub (block_timestamp env) (s_lastTimeStamp c) ;;
        revert (UpkeepNotNeeded (balance c) (players_length c)
                  (RaffleState_to_uint256 (s_raffleState c)) passedTime)
   else ret tt) ;;
  modify (set_raffleState CALCULATING) ;;
  c <- get ;;
  requestId <- requestRandomWords env (i_keyHash c) (i_subscriptionId c)
                 REQUEST_CONFIRMATIONS (i_callbackGasLimit c) NUM_WORDS ;;
  emit (RequestedRaffleWinner requestId).

(** [function fulfillRandomWords(uint256, uint256[] memory _randomWords)
      internal override].  The first parameter is unnamed in the source. *)
Definition fulfillRandomWords (env : Env) (_requestId : uint256)
    (_randomWords : list uint256) : M unit :=
  c <- get ;;
  word <- index _randomWords 0 ;;
  indexOfWinner <- checked_mod word (players_length c) ;;
  winner <- index (s_players c) indexOfWinner ;;
  modify (set_recentWinner winner) ;;
  c <- get ;;
  callSuccess <- call_value env (s_recentWinner c) (balance c) ;;
  revert_if (negb callSuccess) TransferFailed ;;
  modify (set_players []) ;;
  modify (set_lastTimeStamp (block_timestamp env)) ;;
  modify (set_raffleState OPEN) ;;
  c <- get ;;
  emit (WinnerPicked (s_recentWinner c)).

(** *** The view and pure functions *)

Definition getEntranceFee : M uint256 :=
  c <- get ;; ret (i_entranceFee c).

Definition getPlayer (_idx : uint256) : M address :=
  c <- get ;;
  require (0 <? players_length c) "No players participated!" ;;
  index (s_players c) _idx.

Definition getRecentWinner : M address :=
  c <- get ;; ret (s_recentWinner c).

Definition getRaffleState : M RaffleState :=
  c <- get ;; ret (s_raffleState c).

Definition getNumWords : M uint256 := ret NUM_WORDS.

Definition getNumberOfPlayers : M uint256 :=
  c <- get ;; ret (players_length c).

Definition getLatestTimeStamp : M uint256 :=
  c <- get ;; ret (s_lastTimeStamp c).

Definition getRequestConfirmations : M uint256 := ret REQUEST_CONFIRMATIONS.

Definition getInterval : M uint256 :=
  c <- get ;; ret (i_interval c).

(** ** Transactions *)

(** The state-changing entry points.  [enterRaffle] is payable and
    [performUpkeep] is not, which their definitions say.
    [fulfillRandomWords] is internal; it is reached through the inherited
    [rawFulfillRandomWords], which only lets the coordinator in.  That
    restriction is left out here, so the reachable states below include
    those of any caller. *)
Inductive Tx : Type :=
| EnterRaffle
| PerformUpkeep (performData : bytes)
| FulfillRandomWords (requestId : uint256) (randomWords : list uint256).

Definition dispatch (env : Env) (tx : Tx) : M unit :=
  match tx with
  | EnterRaffle => enterRaffle env
  | PerformUpkeep performData => performUpkeep env performData
  | FulfillRandomWords requestId randomWords =>
      fulfillRandomWords env requestId randomWords
  end.

(** What a call leaves behind: the final state of a body that returns, the
    initial state of one that reverts. *)
Definition commit {A} (c : Raffle) (o : Outcome A) : Raffle :=
  match o with
  | Ok _ c' _ => c'
  | Revert _ _ => c
  end.

Definition transact (c : Raffle) (step : Env * Tx) : Raffle :=
  commit c (dispatch (fst step) (snd step) c).

Definition transacts (c : Raffle) (steps : list (Env * Tx)) : Raffle :=
  fold_left transact steps c.

(** States the contract can be in: the one a deployment creates, and
    those any transaction leads to from there. *)
Inductive reachable : Raffle -> Prop :=
| reachable_deployed env coord fee keyHash subId gasLimit interval funds :
    reachable (constructor env coord fee keyHash subId gasLimit interval funds)
| reachable_transact c step :
    reachable c -> reachable (transact c step).

(** The same with block times, which never decrease along a chain: the
    index is the timestamp of the latest block that touched the contract. *)
Inductive reachable_at : uint256 -> Raffle -> Prop :=
| reachable_at_deployed env coord fee keyHash subId gasLimit interval funds :
    reachable_at (block_timestamp env)
      (constructor env coord fee keyHash subId gasLimit interval funds)
| reachable_at_transact t c step :
    reachable_at t c ->
    t <= block_timestamp (fst step) ->
    reachable_at (block_timestamp (fst step)) (transact c step).

(** The winner of the round a transaction completes, read off the state
    before it: the player at index [randomWords[0] % s_players.length]. *)
Definition round_winner (c : Raffle) (step : Env * Tx) : option address :=
  match snd step with
  | FulfillRandomWords _ (word :: _) =>
      match dispatch (fst step) (snd step) c with
      | Ok _ _ _ =>
          nth_error (s_players c) (N.to_nat (word mod players_length c))
      | Revert _ _ => None
      end
  | _ => None
  end.

(** The winner of the most recently completed round along a history, [w]
    when no round completes. *)
Fixpoint latest_winner (w : option address) (c : Raffle)
    (steps : list (Env * Tx)) : option address :=
  match steps with
  | [] => w
  | step :: rest =>
      latest_winner
        (match round_winner c step with Some a => Some a | None => w end)
        (transact c step) rest
  end.

(** *** Sample data *)

Definition sample_env : Env :=
  {| block_timestamp := 1000; msg_sender := 11; msg_value := 100;
     call_success := fun _ _ => true; vrf_requestId := Some 1 |}.

(** A caller that sends no value, as the keeper does. *)
Definition sample_env_keeper : Env :=
  {| block_timestamp := 1000; msg_sender := 99; msg_value := 0;
     call_success := fun _ _ => true; vrf_requestId := Some 1 |}.

Definition sample_raffle : Raffle :=
  {| i_entranceFee := 100; s_players := [11; 22; 33; 44];
     s_recentWinner := 0; i_vrfCoordinator := 7; i_keyHash := 9;
     i_subscriptionId := 8106; i_callbackGasLimit := 500000;
     s_raffleState := OPEN; i_interval := 30; s_lastTimeStamp := 900;
     balance := 400 |}.

Definition sample_calculating : Raffle :=
  set_raffleState CALCULATING sample_raffle.

(** Deployed at time 900; two entries; a round triggered at time 1000. *)
Definition sample_history : list (Env * Tx) :=
  [ ({| block_timestamp := 910; msg_sender := 11; msg_value := 100;
        call_success := fun _ _ => true; vrf_requestId := None |},
     EnterRaffle);
    ({| block_timestamp := 920; msg_sender := 22; msg_value := 100;
        call_success := fun _ _ => true; vrf_requestId := None |},
     EnterRaffle);
    (sample_env_keeper, PerformUpkeep EmptyString) ].

Definition sample_deployed : Raffle :=
  constructor
    {| block_timestamp := 900; msg_sender := 1; msg_value := 0;
       call_success := fun _ _ => true; vrf_requestId := None |}
    7 100 9 8106 500000 30 0.

Definition sample_history_state : Raffle :=
  transacts sample_deployed sample_history.

Definition sample_env_underpaying : Env :=
  {| block_timestamp := 1000; msg_sender := 55; msg_value := 99;
     call_success := fun _ _ => true; vrf_requestId := Some 1 |}.

Definition sample_env_refusing : Env :=
  {| block_timestamp := 1000; msg_sender := 11; msg_value := 100;
     call_success := fun _ _ => false; vrf_requestId := Some 1 |}.

(** ** The front-end address book

    The deploy script [updateContractAddress] keeps a JSON file that maps a
    chain id to the addresses of the raffles deployed on that chain.  The
    parsed file is a JavaScript object whose values are arrays of strings;
    it is modelled by its lookups (chain id to array, [None] for a key that
    is not [in] the object), which leaves the order of the keys in the
    written file out of the picture.  Reading, parsing and writing the file
    belong to the caller. *)

Definition AddressBook : Type := string -> option (list string).

(** [arr.includes(x)] on an array of strings. *)
Definition includes (arr : list string) (x : string) : bool :=
  existsb (String.eqb x) arr.

(** [obj[key] = value] *)
Definition assign (obj : AddressBook) (key : string) (value : list string)
    : AddressBook :=
  fun k => if String.eqb k key then Some value else obj k.

(** The body of [updateContractAddress] between [JSON.parse] and
    [JSON.stringify], for the address [raffle_address] of the deployed
    contract and the chain id [chainId] of the network. *)
Definition updateContractAddress (raffle_address chainId : string)
    (currentAddress : AddressBook) : AddressBook :=
  match currentAddress chainId with
  | Some addresses =>
      if negb (includes addresses raffle_address)
      then assign currentAddress chainId (addresses ++ [raffle_address])
      else currentAddress
  | None => assign currentAddress chainId [raffle_address]
  end.

Definition sample_env_no_coordinator : Env :=
  {| block_timestamp := 1000; msg_sender := 11; msg_value := 0;
     call_success := fun _ _ => true; vrf_requestId := None |}.

Definition sample_env_overpaying : Env :=
  {| block_timestamp := 1000; msg_sender := 66; msg_value := 250;
     call_success := fun _ _ => true; vrf_requestId := None |}.

Definition sample_book : AddressBook :=
  fun k => if String.eqb k "5" then Some ["0xaa"%string; "0xbb"%string]
           else None.

(** * Properties *)

(** ** Unfolding the monad *)

Ltac sol_unfold :=
  cbv beta iota zeta delta [bind ret get modify revert effect emit require
    revert_if checked_sub checked_mod index and_then payable nonpayable
    call_value requestRandomWords] in *.

Lemma RaffleState_eqb_eq a b : RaffleState_eqb a b = true <-> a = b.
Proof. destruct a, b; simpl; split; congruence. Qed.

Lemma RaffleState_eqb_OPEN s :
  RaffleState_eqb s OPEN = negb (RaffleState_eqb s CALCULATING).
Proof. now destruct s. Qed.

Lemma players_length_pos c : 0 < players_length c <-> s_players c <> [].
Proof.
  unfold players_length. destruct (s_players c); simpl; split; intros H.
  - lia.
  - congruence.
  - discriminate.
  - lia.
Qed.

(** A modulo by the length of a non-empty array is an index into it. *)
Lemma winner_index_in_bounds (word : uint256) (players : list address) :
  players <> [] ->
  exists winner,
    nth_error players (N.to_nat (word mod N.of_nat (List.length players)))
      = Some winner.
Proof.
  intros Hne.
  destruct (nth_error players
              (N.to_nat (word mod N.of_nat (List.length players)))) eqn:E.
  - eauto.
  - exfalso. apply nth_error_None in E.
    assert (0 < List.length players)%nat
      by (destruct players; simpl; [congruence | lia]).
    assert (word mod N.of_nat (List.length players)
            < N.of_nat (List.length players)) by (apply N.mod_lt; lia).
    lia.
Qed.

(** ** checkUpkeep *)

(** What [checkUpkeep] computes, in closed form: the only way it can fail
    is the checked subtraction, and that is evaluated only when the raffle
    is open. *)
Lemma checkUpkeep_eval env checkData c :
  checkUpkeep env checkData c =
  if RaffleState_eqb (s_raffleState c) OPEN
     && (block_timestamp env <? s_lastTimeStamp c)
  then Revert (Panic PANIC_ARITHMETIC) []
  else Ok (RaffleState_eqb (s_raffleState c) OPEN
           && (i_interval c <? block_timestamp env - s_lastTimeStamp c)
           && (0 <? players_length c)
           && (0 <? balance c), "0x0"%string) c [].
Proof.
  unfold checkUpkeep. sol_unfold.
  destruct (RaffleState_eqb (s_raffleState c) OPEN); simpl; [|reflexivity].
  destruct (block_timestamp env <? s_lastTimeStamp c); simpl; [reflexivity|].
  destruct (i_interval c <? block_timestamp env - s_lastTimeStamp c);
    simpl; [|reflexivity].
  destruct (0 <? players_length c); simpl; [|reflexivity].
  destruct (0 <? balance c); reflexivity.
Qed.

(** C2.  For every state and current time, [checkUpkeep] returns true if
    and only if the raffle is OPEN, the time passed since the last round
    (as an integer difference) is strictly greater than the interval, there
    is at least one player, and the balance is positive.  Whenever it
    returns, the state is the one it was called in, nothing was emitted or
    called, and the second component is the constant ["0x0"]. *)
Theorem checkUpkeep_true_iff_ready env checkData c :
  (checkUpkeep env checkData c = Ok (true, "0x0"%string) c [] <->
     s_raffleState c = OPEN /\
     (Z.of_N (block_timestamp env) - Z.of_N (s_lastTimeStamp c)
        > Z.of_N (i_interval c))%Z /\
     0 < players_length c /\
     0 < balance c)
  /\
  (forall r c' tr,
     checkUpkeep env checkData c = Ok r c' tr ->
     c' = c /\ tr = [] /\ snd r = "0x0"%string).
Proof.
  rewrite checkUpkeep_eval. split.
  - destruct (RaffleState_eqb (s_raffleState c) OPEN) eqn:Es; simpl.
    + apply RaffleState_eqb_eq in Es.
      destruct (N.ltb_spec (block_timestamp env) (s_lastTimeStamp c)).
      * split; [discriminate | intros (_ & Ht & _); lia].
      * destruct (N.ltb_spec (i_interval c)
                    (block_timestamp env - s_lastTimeStamp c));
        destruct (N.ltb_spec 0 (players_length c));
        destruct (N.ltb_spec 0 (balance c)); simpl;
        (split; [intros E; try discriminate E; repeat split; (assumption || lia)
                | intros (_ & Ht & Hp & Hb); try reflexivity; lia]).
    + split; [discriminate |].
      intros (Ho & _). apply RaffleState_eqb_eq in Ho. congruence.
  - intros r c' tr.
    destruct (_ && _); [discriminate |].
    intros E. injection E as <- <- <-. auto.
Qed.

Lemma checkUpkeep_true_iff_ready_witness :
  checkUpkeep sample_env EmptyString sample_raffle
    = Ok (true, "0x0"%string) sample_raffle []
  /\ s_raffleState sample_raffle = OPEN
  /\ (Z.of_N (block_timestamp sample_env)
        - Z.of_N (s_lastTimeStamp sample_raffle)
      > Z.of_N (i_interval sample_raffle))%Z
  /\ 0 < players_length sample_raffle
  /\ 0 < balance sample_raffle.
Proof.
  split; [reflexivity|].
  apply (proj1 (proj1 (checkUpkeep_true_iff_ready sample_env EmptyString
                         sample_raffle))).
  reflexivity.
Defined.

(** ** fulfillRandomWords *)

(** Once the first random word selects a player, the only thing left to
    decide the outcome is whether that player accepts the payment. *)
Lemma fulfillRandomWords_eval env requestId (word : uint256)
    (rest : list uint256) c winner :
  nth_error (s_players c) (N.to_nat (word mod players_length c))
    = Some winner ->
  fulfillRandomWords env requestId (word :: rest) c =
  if call_success env winner (balance c)
  then Ok tt
         {| i_entranceFee := i_entranceFee c;
            s_players := [];
            s_recentWinner := winner;
            i_vrfCoordinator := i_vrfCoordinator c;
            i_keyHash := i_keyHash c;
            i_subscriptionId := i_subscriptionId c;
            i_callbackGasLimit := i_callbackGasLimit c;
            s_raffleState := OPEN;
            i_interval := i_interval c;
            s_lastTimeStamp := block_timestamp env;
            balance := 0 |}
         [CallValue winner (balance c); Emit (WinnerPicked winner)]
  else Revert TransferFailed [CallValue winner (balance c)].
Proof.
  intros Hw.
  assert (Hlen : (players_length c =? 0) = false).
  { apply N.eqb_neq. unfold players_length in *.
    destruct (s_players c); [|simpl; lia].
    destruct (N.to_nat _); discriminate Hw. }
  unfold fulfillRandomWords. sol_unfold. simpl.
  rewrite Hlen. simpl. rewrite Hw. simpl.
  destruct (call_success env winner (balance c)); simpl; [|reflexivity].
  unfold set_raffleState, set_lastTimeStamp, set_players, set_balance,
    set_recentWinner; simpl.
  rewrite N.sub_diag. reflexivity.
Qed.

(** The outcome when no player can be selected. *)
Lemma fulfillRandomWords_no_players env requestId randomWords c :
  s_players c = [] ->
  fulfillRandomWords env requestId randomWords c =
  match randomWords with
  | [] => Revert (Panic PANIC_OUT_OF_BOUNDS) []
  | _ :: _ => Revert (Panic PANIC_DIV_BY_ZERO) []
  end.
Proof.
  intros Hp. unfold fulfillRandomWords. sol_unfold.
  destruct randomWords as [|word rest]; simpl; [reflexivity|].
  unfold players_length. rewrite Hp. reflexivity.
Qed.

Lemma fulfillRandomWords_no_words env requestId c :
  fulfillRandomWords env requestId [] c = Revert (Panic PANIC_OUT_OF_BOUNDS) [].
Proof. reflexivity. Qed.

(** C1.  For every state with n > 0 players and every random value R, the
    player at index R mod n exists, and when that player accepts the
    payment [fulfillRandomWords] returns: it has sent the whole balance to
    that player and emitted [WinnerPicked], [s_recentWinner] is that
    player, [s_players] is empty, [s_lastTimeStamp] is the block time, the
    raffle is OPEN again and the balance is zero.  It returns in no other
    case. *)
Theorem fulfillRandomWords_picks_and_pays env requestId (R : uint256) rest c :
  0 < players_length c ->
  exists winner,
    nth_error (s_players c) (N.to_nat (R mod players_length c)) = Some winner
    /\ (call_success env winner (balance c) = true ->
        fulfillRandomWords env requestId (R :: rest) c =
        Ok tt
          {| i_entranceFee := i_entranceFee c;
             s_players := [];
             s_recentWinner := winner;
             i_vrfCoordinator := i_vrfCoordinator c;
             i_keyHash := i_keyHash c;
             i_subscriptionId := i_subscriptionId c;
             i_callbackGasLimit := i_callbackGasLimit c;
             s_raffleState := OPEN;
             i_interval := i_interval c;
             s_lastTimeStamp := block_timestamp env;
             balance := 0 |}
          [CallValue winner (balance c); Emit (WinnerPicked winner)])
    /\ (forall c' tr,
          fulfillRandomWords env requestId (R :: rest) c = Ok tt c' tr ->
          call_success env winner (balance c) = true).
Proof.
  intros Hn. apply players_length_pos in Hn.
  destruct (winner_index_in_bounds R (s_players c) Hn) as [winner Hw].
  exists winner. fold (players_length c) in Hw.
  split; [exact Hw|].
  rewrite (fulfillRandomWords_eval env requestId R rest c winner Hw).
  split.
  - intros ->. reflexivity.
  - intros c' tr. destruct (call_success env winner (balance c));
      [reflexivity | discriminate].
Qed.

Lemma fulfillRandomWords_picks_and_pays_witness :
  0 < players_length sample_calculating
  /\ exists winner,
       nth_error (s_players sample_calculating)
         (N.to_nat (5 mod players_length sample_calculating)) = Some winner
       /\ (call_success sample_env winner (balance sample_calculating) = true ->
           fulfillRandomWords sample_env 77 [5] sample_calculating =
           Ok tt
             {| i_entranceFee := 100;
                s_players := [];
                s_recentWinner := winner;
                i_vrfCoordinator := 7;
                i_keyHash := 9;
                i_subscriptionId := 8106;
                i_callbackGasLimit := 500000;
                s_raffleState := OPEN;
                i_interval := 30;
                s_lastTimeStamp := 1000;
                balance := 0 |}
             [CallValue winner 400; Emit (WinnerPicked winner)])
       /\ (forall c' tr,
             fulfillRandomWords sample_env 77 [5] sample_calculating
               = Ok tt c' tr ->
             call_success sample_env winner (balance sample_calculating)
               = true).
Proof.
  split; [reflexivity|].
  apply (fulfillRandomWords_picks_and_pays sample_env 77 5 []
           sample_calculating).
  reflexivity.
Defined.

(** C4.  In phase CALCULATING, when the selected player refuses the
    payment, [fulfillRandomWords] reverts with [TransferFailed] after that
    one attempted call, and the transaction leaves the state as it was:
    same [s_recentWinner], same [s_players], same [s_lastTimeStamp], same
    balance, phase still CALCULATING.  The same delivery goes through later
    if the player then accepts. *)
Theorem fulfillRandomWords_transfer_failed env requestId (R : uint256) rest
    c winner :
  s_raffleState c = CALCULATING ->
  nth_error (s_players c) (N.to_nat (R mod players_length c)) = Some winner ->
  call_success env winner (balance c) = false ->
  fulfillRandomWords env requestId (R :: rest) c
    = Revert TransferFailed [CallValue winner (balance c)]
  /\ transact c (env, FulfillRandomWords requestId (R :: rest)) = c
  /\ s_recentWinner
       (transact c (env, FulfillRandomWords requestId (R :: rest)))
     = s_recentWinner c
  /\ s_players (transact c (env, FulfillRandomWords requestId (R :: rest)))
     = s_players c
  /\ s_lastTimeStamp
       (transact c (env, FulfillRandomWords requestId (R :: rest)))
     = s_lastTimeStamp c
  /\ s_raffleState
       (transact c (env, FulfillRandomWords requestId (R :: rest)))
     = CALCULATING
  /\ (forall env',
        call_success env' winner (balance c) = true ->
        exists c' tr,
          fulfillRandomWords env' requestId (R :: rest)
            (transact c (env, FulfillRandomWords requestId (R :: rest)))
          = Ok tt c' tr /\ s_recentWinner c' = winner).
Proof.
  intros Hs Hw Hfail.
  assert (E : fulfillRandomWords env requestId (R :: rest) c
              = Revert TransferFailed [CallValue winner (balance c)]).
  { rewrite (fulfillRandomWords_eval env requestId R rest c winner Hw).
    rewrite Hfail. reflexivity. }
  assert (T : transact c (env, FulfillRandomWords requestId (R :: rest)) = c).
  { unfold transact. simpl. rewrite E. reflexivity. }
  rewrite T. repeat split; try assumption; try reflexivity.
  intros env' Hok.
  rewrite (fulfillRandomWords_eval env' requestId R rest c winner Hw).
  rewrite Hok. eauto.
Qed.

Lemma fulfillRandomWords_transfer_failed_witness :
  s_raffleState sample_calculating = CALCULATING
  /\ nth_error (s_players sample_calculating)
       (N.to_nat (5 mod players_length sample_calculating)) = Some 22
  /\ call_success sample_env_refusing 22 (balance sample_calculating) = false
  /\ fulfillRandomWords sample_env_refusing 77 [5] sample_calculating
       = Revert TransferFailed [CallValue 22 400]
  /\ transact sample_calculating
       (sample_env_refusing, FulfillRandomWords 77 [5])
     = sample_calculating.
Proof.
  pose proof (fulfillRandomWords_transfer_failed sample_env_refusing 77 5 []
                sample_calculating 22 eq_refl eq_refl eq_refl) as H.
  exact (conj eq_refl (conj eq_refl (conj eq_refl
           (conj (proj1 H) (proj1 (proj2 H)))))).
Defined.

(** C3, as the code has it.  [fulfillRandomWords] does not read its first
    argument: for every state and every list of random words the outcome
    (return or revert, final state, call and event) is the same for any two
    request ids.  The contract keeps no record of an outstanding request
    and has no failure for an unknown one: the only ways the function
    fails are the two array accesses, the modulo, and a refused payment. *)
Theorem fulfillRandomWords_any_requestId env (requestId requestId' : uint256)
    (randomWords : list uint256) c :
  fulfillRandomWords env requestId randomWords c
    = fulfillRandomWords env requestId' randomWords c
  /\ match fulfillRandomWords env requestId randomWords c with
     | Ok _ _ _ => True
     | Revert e _ =>
         e = Panic PANIC_OUT_OF_BOUNDS \/ e = Panic PANIC_DIV_BY_ZERO
         \/ e = TransferFailed
     end.
Proof.
  split; [reflexivity|].
  destruct randomWords as [|word rest].
  - rewrite fulfillRandomWords_no_words. auto.
  - destruct (s_players c) as [|p ps] eqn:Ep.
    + rewrite (fulfillRandomWords_no_players _ _ _ _ Ep). auto.
    + assert (Hne : s_players c <> []) by congruence.
      destruct (winner_index_in_bounds word (s_players c) Hne) as [w Hw].
      fold (players_length c) in Hw.
      rewrite (fulfillRandomWords_eval env requestId word rest c w Hw).
      destruct (call_success env w (balance c)); auto.
Qed.

(** C3, as stated, fails: after [performUpkeep] obtained request id 1
    from the coordinator, a delivery under request id 2 is accepted, pays
    the winner and resets the round. *)
Lemma fulfillRandomWords_unknown_requestId_accepted :
  performUpkeep sample_env_keeper EmptyString sample_raffle
    = Ok tt sample_calculating
        [RequestRandomWords 9 8106 3 500000 1;
         Emit (RequestedRaffleWinner 1)]
  /\ fulfillRandomWords sample_env 2 [5] sample_calculating
     = Ok tt
         {| i_entranceFee := 100;
            s_players := [];
            s_recentWinner := 22;
            i_vrfCoordinator := 7;
            i_keyHash := 9;
            i_subscriptionId := 8106;
            i_callbackGasLimit := 500000;
            s_raffleState := OPEN;
            i_interval := 30;
            s_lastTimeStamp := 1000;
            balance := 0 |}
         [CallValue 22 400; Emit (WinnerPicked 22)]
  /\ transact sample_calculating (sample_env, FulfillRandomWords 2 [5])
     <> sample_calculating.
Proof.
  split; [reflexivity|]. split; [reflexivity|].
  vm_compute. discriminate.
Qed.

(** ** enterRaffle *)

Lemma enterRaffle_eval env c :
  enterRaffle env c =
  if msg_value env <? i_entranceFee c then Revert NotEnoughETHEntered []
  else if RaffleState_eqb (s_raffleState c) CALCULATING then Revert NotOpen []
  else Ok tt
         {| i_entranceFee := i_entranceFee c;
            s_players := s_players c ++ [msg_sender env];
            s_recentWinner := s_recentWinner c;
            i_vrfCoordinator := i_vrfCoordinator c;
            i_keyHash := i_keyHash c;
            i_subscriptionId := i_subscriptionId c;
            i_callbackGasLimit := i_callbackGasLimit c;
            s_raffleState := s_raffleState c;
            i_interval := i_interval c;
            s_lastTimeStamp := s_lastTimeStamp c;
            balance := balance c + msg_value env |}
         [Emit (RaffleEnter (msg_sender env))].
Proof.
  unfold enterRaffle. sol_unfold. simpl.
  destruct (msg_value env <? i_entranceFee c); simpl; [reflexivity|].
  destruct (RaffleState_eqb (s_raffleState c) CALCULATING); reflexivity.
Qed.

(** C5, as the code has it.  While the raffle is OPEN, entering with
    exactly the entrance fee succeeds.  Entering with one unit less than
    the fee fails with [NotEnoughETHEntered], in either phase.  While the
    raffle is CALCULATING, entering fails with [NotOpen] when the fee is
    covered, and with [NotEnoughETHEntered] when it is not: the fee is
    checked first. *)
Theorem enterRaffle_boundaries env c :
  (s_raffleState c = OPEN -> msg_value env = i_entranceFee c ->
   exists c',
     enterRaffle env c = Ok tt c' [Emit (RaffleEnter (msg_sender env))])
  /\ (msg_value env + 1 = i_entranceFee c ->
      enterRaffle env c = Revert NotEnoughETHEntered [])
  /\ (s_raffleState c = CALCULATING -> i_entranceFee c <= msg_value env ->
      enterRaffle env c = Revert NotOpen [])
  /\ (s_raffleState c = CALCULATING -> msg_value env < i_entranceFee c ->
      enterRaffle env c = Revert NotEnoughETHEntered []).
Proof.
  rewrite enterRaffle_eval.
  destruct (N.ltb_spec (msg_value env) (i_entranceFee c)) as [Hlt|Hge].
  - repeat split; try reflexivity; intros; lia.
  - repeat split; intros; try lia.
    + match goal with H : s_raffleState c = _ |- _ => rewrite H end.
      simpl. eauto.
    + match goal with H : s_raffleState c = _ |- _ => rewrite H end.
      reflexivity.
Qed.

Lemma enterRaffle_boundaries_witness :
  (exists c',
     enterRaffle sample_env sample_raffle
       = Ok tt c' [Emit (RaffleEnter 11)])
  /\ enterRaffle sample_env_underpaying sample_raffle
     = Revert NotEnoughETHEntered []
  /\ enterRaffle sample_env sample_calculating = Revert NotOpen []
  /\ enterRaffle sample_env_underpaying sample_calculating
     = Revert NotEnoughETHEntered [].
Proof.
  split.
  { apply (proj1 (enterRaffle_boundaries sample_env sample_raffle));
      reflexivity. }
  split.
  { apply (proj1 (proj2
             (enterRaffle_boundaries sample_env_underpaying sample_raffle)));
      reflexivity. }
  split.
  { apply (proj1 (proj2 (proj2
             (enterRaffle_boundaries sample_env sample_calculating))));
      [reflexivity | vm_compute; discriminate]. }
  apply (proj2 (proj2 (proj2
           (enterRaffle_boundaries sample_env_underpaying
              sample_calculating))));
    reflexivity.
Defined.

(** C5, as stated, fails: while the raffle is CALCULATING, an entry that
    pays less than the fee is refused with [NotEnoughETHEntered], not with
    [NotOpen]. *)
Lemma enterRaffle_calculating_underpaid :
  s_raffleState sample_calculating = CALCULATING
  /\ msg_value sample_env_underpaying < i_entranceFee sample_calculating
  /\ enterRaffle sample_env_underpaying sample_calculating
     = Revert NotEnoughETHEntered []
  /\ enterRaffle sample_env_underpaying sample_calculating
     <> Revert NotOpen [].
Proof.
  repeat split. vm_compute. discriminate.
Qed.

(** C10.  A call of [enterRaffle] that returns has appended the caller,
    once, at the end of [s_players], and has left every other variable of
    the contract as it was: [s_raffleState], [s_recentWinner],
    [s_lastTimeStamp] and the immutables.  The balance has grown by the
    value sent, and the one event emitted is [RaffleEnter]. *)
Theorem enterRaffle_appends_sender env c c' tr :
  enterRaffle env c = Ok tt c' tr ->
  s_players c' = s_players c ++ [msg_sender env]
  /\ s_raffleState c' = s_raffleState c
  /\ s_recentWinner c' = s_recentWinner c
  /\ s_lastTimeStamp c' = s_lastTimeStamp c
  /\ i_entranceFee c' = i_entranceFee c
  /\ i_interval c' = i_interval c
  /\ i_vrfCoordinator c' = i_vrfCoordinator c
  /\ i_keyHash c' = i_keyHash c
  /\ i_subscriptionId c' = i_subscriptionId c
  /\ i_callbackGasLimit c' = i_callbackGasLimit c
  /\ balance c' = balance c + msg_value env
  /\ tr = [Emit (RaffleEnter (msg_sender env))].
Proof.
  rewrite enterRaffle_eval.
  destruct (msg_value env <? i_entranceFee c); [discriminate|].
  destruct (RaffleState_eqb (s_raffleState c) CALCULATING); [discriminate|].
  intros E. injection E as <- <-. simpl. repeat split.
Qed.

Lemma enterRaffle_appends_sender_witness :
  enterRaffle sample_env sample_raffle
    = Ok tt (transact sample_raffle (sample_env, EnterRaffle))
        [Emit (RaffleEnter 11)]
  /\ s_players (transact sample_raffle (sample_env, EnterRaffle))
     = [11; 22; 33; 44] ++ [11]
  /\ s_raffleState (transact sample_raffle (sample_env, EnterRaffle)) = OPEN.
Proof.
  pose proof (enterRaffle_appends_sender sample_env sample_raffle
                (transact sample_raffle (sample_env, EnterRaffle))
                [Emit (RaffleEnter 11)] eq_refl) as H.
  exact (conj eq_refl (conj (proj1 H) (proj1 (proj2 H)))).
Defined.

(** ** performUpkeep *)

Lemma performUpkeep_eval env performData c :
  performUpkeep env performData c =
  if negb (msg_value env =? 0) then Revert EmptyRevert []
  else if RaffleState_eqb (s_raffleState c) OPEN
     && (block_timestamp env <? s_lastTimeStamp c)
  then Revert (Panic PANIC_ARITHMETIC) []
  else if RaffleState_eqb (s_raffleState c) OPEN
          && (i_interval c <? block_timestamp env - s_lastTimeStamp c)
          && (0 <? players_length c)
          && (0 <? balance c)
  then match vrf_requestId env with
       | Some requestId =>
           Ok tt (set_raffleState CALCULATING c)
             [RequestRandomWords (i_keyHash c) (i_subscriptionId c)
                REQUEST_CONFIRMATIONS (i_callbackGasLimit c) NUM_WORDS;
              Emit (RequestedRaffleWinner requestId)]
       | None =>
           Revert CoordinatorReverted
             [RequestRandomWords (i_keyHash c) (i_subscriptionId c)
                REQUEST_CONFIRMATIONS (i_callbackGasLimit c) NUM_WORDS]
       end
  else if block_timestamp env <? s_lastTimeStamp c
  then Revert (Panic PANIC_ARITHMETIC) []
  else Revert
         (UpkeepNotNeeded (balance c) (players_length c)
            (RaffleState_to_uint256 (s_raffleState c))
            (block_timestamp env - s_lastTimeStamp c)) [].
Proof.
  unfold performUpkeep, nonpayable, revert_if.
  destruct (negb (msg_value env =? 0)); [reflexivity|].
  unfold bind at 1. cbn [ret]. unfold bind at 1.
  rewrite checkUpkeep_eval.
  destruct (RaffleState_eqb (s_raffleState c) OPEN
            && (block_timestamp env <? s_lastTimeStamp c)); [reflexivity|].
  destruct (RaffleState_eqb (s_raffleState c) OPEN
            && (i_interval c <? block_timestamp env - s_lastTimeStamp c)
            && (0 <? players_length c) && (0 <? balance c)).
  - sol_unfold. simpl. destruct (vrf_requestId env); reflexivity.
  - sol_unfold. simpl.
    destruct (block_timestamp env <? s_lastTimeStamp c); reflexivity.
Qed.

(** C6.  Whenever [checkUpkeep] returns false, [performUpkeep] reverts
    with an empty trace, that is before anything is requested from the
    coordinator or emitted, and the transaction leaves the state as it was.
    For a call without value (the function is not payable) and with the
    block time not before [s_lastTimeStamp] (as on any chain, see
    [reachable_at_lastTimeStamp]) the revert is [UpkeepNotNeeded] carrying
    the balance, the number of players, the raffle state as a number and
    the time passed since the last round; and [checkUpkeep] does return
    false when there is no player or the raffle is CALCULATING. *)
Theorem performUpkeep_not_needed env performData c :
  (forall checkData,
     checkUpkeep env checkData c = Ok (false, "0x0"%string) c [] ->
     (exists e, performUpkeep env performData c = Revert e [])
     /\ transact c (env, PerformUpkeep performData) = c
     /\ (msg_value env = 0 ->
         s_lastTimeStamp c <= block_timestamp env ->
         performUpkeep env performData c
         = Revert
             (UpkeepNotNeeded (balance c) (players_length c)
                (RaffleState_to_uint256 (s_raffleState c))
                (block_timestamp env - s_lastTimeStamp c)) []))
  /\ (s_lastTimeStamp c <= block_timestamp env ->
      s_players c = [] \/ s_raffleState c = CALCULATING ->
      forall checkData,
        checkUpkeep env checkData c = Ok (false, "0x0"%string) c []).
Proof.
  split.
  - intros checkData. rewrite checkUpkeep_eval.
    unfold transact. simpl. rewrite performUpkeep_eval.
    destruct (N.eqb_spec (msg_value env) 0) as [Hv|Hv]; simpl;
      [|intros _; repeat split; [eauto | intros; congruence]].
    destruct (RaffleState_eqb (s_raffleState c) OPEN
              && (block_timestamp env <? s_lastTimeStamp c));
      [discriminate|].
    destruct (RaffleState_eqb (s_raffleState c) OPEN
              && (i_interval c <? block_timestamp env - s_lastTimeStamp c)
              && (0 <? players_length c) && (0 <? balance c));
      [discriminate|].
    intros _.
    destruct (N.ltb_spec (block_timestamp env) (s_lastTimeStamp c)).
    + repeat split; [eauto | intros; lia].
    + repeat split; eauto.
  - intros Htime Hcase checkData.
    rewrite checkUpkeep_eval.
    apply N.ltb_ge in Htime. rewrite Htime, andb_false_r.
    destruct Hcase as [Hp | Hs].
    + unfold players_length. rewrite Hp. simpl.
      rewrite andb_false_r. reflexivity.
    + rewrite Hs. reflexivity.
Qed.

Lemma performUpkeep_not_needed_witness :
  msg_value sample_env_keeper = 0
  /\ s_lastTimeStamp sample_calculating <= block_timestamp sample_env_keeper
  /\ checkUpkeep sample_env_keeper EmptyString sample_calculating
     = Ok (false, "0x0"%string) sample_calculating []
  /\ performUpkeep sample_env_keeper EmptyString sample_calculating
     = Revert (UpkeepNotNeeded 400 4 1 100) []
  /\ transact sample_calculating
       (sample_env_keeper, PerformUpkeep EmptyString)
     = sample_calculating.
Proof.
  assert (Htime : s_lastTimeStamp sample_calculating
                  <= block_timestamp sample_env_keeper)
    by (vm_compute; discriminate).
  pose proof (proj1 (performUpkeep_not_needed sample_env_keeper EmptyString
                       sample_calculating) EmptyString eq_refl) as H.
  exact (conj eq_refl (conj Htime (conj eq_refl
           (conj (proj2 (proj2 H) eq_refl Htime) (proj1 (proj2 H)))))).
Defined.

(** A call that carries value is turned away before the body runs. *)
Lemma performUpkeep_refuses_value env performData c :
  msg_value env <> 0 ->
  performUpkeep env performData c = Revert EmptyRevert []
  /\ transact c (env, PerformUpkeep performData) = c.
Proof.
  intros Hv. unfold transact. cbn [dispatch fst snd].
  rewrite performUpkeep_eval.
  destruct (N.eqb_spec (msg_value env) 0); [contradiction|].
  split; reflexivity.
Qed.

(** A round is triggered only from an open raffle that has a player, and
    triggering changes nothing but the raffle state. *)
Lemma performUpkeep_returns env performData c c' tr :
  performUpkeep env performData c = Ok tt c' tr ->
  s_raffleState c = OPEN /\ 0 < players_length c /\ 0 < balance c
  /\ c' = set_raffleState CALCULATING c.
Proof.
  rewrite performUpkeep_eval.
  destruct (negb (msg_value env =? 0)); [discriminate|].
  destruct (RaffleState_eqb (s_raffleState c) OPEN
            && (block_timestamp env <? s_lastTimeStamp c));
    [discriminate|].
  destruct (RaffleState_eqb (s_raffleState c) OPEN) eqn:Es; simpl;
    [|destruct (block_timestamp env <? s_lastTimeStamp c); discriminate].
  destruct (i_interval c <? block_timestamp env - s_lastTimeStamp c); simpl;
    [|destruct (block_timestamp env <? s_lastTimeStamp c); discriminate].
  destruct (N.ltb_spec 0 (players_length c)); simpl;
    [|destruct (block_timestamp env <? s_lastTimeStamp c); discriminate].
  destruct (N.ltb_spec 0 (balance c)); simpl;
    [|destruct (block_timestamp env <? s_lastTimeStamp c); discriminate].
  destruct (vrf_requestId env); [|discriminate].
  intros E. injection E as <- <-.
  apply RaffleState_eqb_eq in Es. auto.
Qed.

(** ** Invariants of the reachable states *)

Ltac transact_unfold :=
  unfold transact, round_winner; cbn [dispatch fst snd].

(** The invariant behind C7 is kept by every transaction. *)
Lemma transact_keeps_players c step :
  (s_raffleState c = CALCULATING -> s_players c <> []) ->
  s_raffleState (transact c step) = CALCULATING ->
  s_players (transact c step) <> [].
Proof.
  intros Inv. destruct step as [env [|performData|requestId randomWords]];
    transact_unfold.
  - rewrite enterRaffle_eval.
    destruct (msg_value env <? i_entranceFee c); simpl; [exact Inv|].
    destruct (RaffleState_eqb (s_raffleState c) CALCULATING); simpl;
      [exact Inv|].
    intros _ E. apply app_eq_nil in E. destruct E; discriminate.
  - destruct (performUpkeep env performData c) as [[] c' tr|e tr] eqn:E;
      simpl; [|exact Inv].
    apply performUpkeep_returns in E. destruct E as (_ & Hn & _ & ->).
    intros _. simpl. now apply players_length_pos.
  - destruct randomWords as [|word rest];
      [rewrite fulfillRandomWords_no_words; exact Inv|].
    destruct (s_players c) as [|p ps] eqn:Ep.
    + rewrite (fulfillRandomWords_no_players _ _ _ _ Ep). simpl.
      rewrite Ep. exact Inv.
    + assert (Hne : s_players c <> []) by congruence.
      destruct (winner_index_in_bounds word (s_players c) Hne) as [w Hw].
      fold (players_length c) in Hw.
      rewrite (fulfillRandomWords_eval env requestId word rest c w Hw).
      destruct (call_success env w (balance c)); simpl.
      * discriminate.
      * rewrite Ep. intros _. discriminate.
Qed.

Lemma reachable_calculating_players c :
  reachable c -> s_raffleState c = CALCULATING -> s_players c <> [].
Proof.
  induction 1 as [env coord fee keyHash subId gasLimit interval funds
                 | c step Hr IH].
  - discriminate.
  - now apply transact_keeps_players.
Qed.

(** C7.  In every state reachable from a deployment by any sequence of
    [enterRaffle], [performUpkeep] and [fulfillRandomWords] transactions,
    a raffle that is CALCULATING has at least one player, so that
    [fulfillRandomWords] never fails there by a modulo by zero, whatever
    it is called with. *)
Theorem calculating_has_players c :
  reachable c ->
  s_raffleState c = CALCULATING ->
  0 < players_length c
  /\ forall env requestId randomWords tr,
       fulfillRandomWords env requestId randomWords c
       <> Revert (Panic PANIC_DIV_BY_ZERO) tr.
Proof.
  intros Hr Hs.
  pose proof (reachable_calculating_players c Hr Hs) as Hne.
  split; [now apply players_length_pos|].
  intros env requestId randomWords tr.
  destruct randomWords as [|word rest].
  - rewrite fulfillRandomWords_no_words. discriminate.
  - destruct (winner_index_in_bounds word (s_players c) Hne) as [w Hw].
    fold (players_length c) in Hw.
    rewrite (fulfillRandomWords_eval env requestId word rest c w Hw).
    destruct (call_success env w (balance c)); discriminate.
Qed.

Lemma calculating_has_players_witness :
  reachable sample_history_state
  /\ s_raffleState sample_history_state = CALCULATING
  /\ 0 < players_length sample_history_state
  /\ forall env requestId randomWords tr,
       fulfillRandomWords env requestId randomWords sample_history_state
       <> Revert (Panic PANIC_DIV_BY_ZERO) tr.
Proof.
  assert (Hr : reachable sample_history_state).
  { unfold sample_history_state, sample_history, transacts. simpl fold_left.
    do 3 apply reachable_transact. apply reachable_deployed. }
  exact (conj Hr (conj eq_refl
           (calculating_has_players sample_history_state Hr eq_refl))).
Defined.

(** Along a chain, whose block times never decrease, [s_lastTimeStamp] is
    never ahead of the clock: the subtraction in [checkUpkeep] and in
    the arguments of [UpkeepNotNeeded] does not underflow. *)
Lemma transact_lastTimeStamp c env tx :
  s_lastTimeStamp (transact c (env, tx)) = s_lastTimeStamp c
  \/ s_lastTimeStamp (transact c (env, tx)) = block_timestamp env.
Proof.
  destruct tx as [|performData|requestId randomWords]; transact_unfold.
  - rewrite enterRaffle_eval.
    destruct (msg_value env <? i_entranceFee c); simpl; [auto|].
    destruct (RaffleState_eqb (s_raffleState c) CALCULATING); simpl; auto.
  - destruct (performUpkeep env performData c) as [[] c' tr|e tr] eqn:E;
      simpl; [|auto].
    apply performUpkeep_returns in E. destruct E as (_ & _ & _ & ->). auto.
  - destruct randomWords as [|word rest];
      [rewrite fulfillRandomWords_no_words; auto|].
    destruct (s_players c) as [|p ps] eqn:Ep.
    + rewrite (fulfillRandomWords_no_players _ _ _ _ Ep). auto.
    + assert (Hne : s_players c <> []) by congruence.
      destruct (winner_index_in_bounds word (s_players c) Hne) as [w Hw].
      fold (players_length c) in Hw.
      rewrite (fulfillRandomWords_eval env requestId word rest c w Hw).
      destruct (call_success env w (balance c)); simpl; auto.
Qed.

Lemma reachable_at_lastTimeStamp t c :
  reachable_at t c -> s_lastTimeStamp c <= t.
Proof.
  induction 1 as [env coord fee keyHash subId gasLimit interval funds
                 | t c [env tx] Hr IH Ht].
  - simpl. lia.
  - simpl in *. destruct (transact_lastTimeStamp c env tx) as [-> | ->]; lia.
Qed.

Lemma reachable_at_reachable t c : reachable_at t c -> reachable c.
Proof. induction 1; constructor; assumption. Qed.

(** ** getPlayer *)

(** C8.  [getPlayer] fails when there is no player, by its [require], and
    when the index is not below the number of players, by the bounds check
    of the array access; otherwise it returns the player at that index.
    In no case is the state changed or anything emitted. *)
Theorem getPlayer_bounds (_idx : uint256) c :
  (s_players c = [] ->
   getPlayer _idx c = Revert (ErrorString "No players participated!") [])
  /\ (s_players c <> [] -> players_length c <= _idx ->
      getPlayer _idx c = Revert (Panic PANIC_OUT_OF_BOUNDS) [])
  /\ (_idx < players_length c ->
      exists player,
        nth_error (s_players c) (N.to_nat _idx) = Some player
        /\ getPlayer _idx c = Ok player c []).
Proof.
  unfold getPlayer. sol_unfold. repeat split.
  - intros Hp. unfold players_length. rewrite Hp. reflexivity.
  - intros Hne Hge. apply players_length_pos in Hne.
    apply N.ltb_lt in Hne. rewrite Hne. simpl.
    assert (E : nth_error (s_players c) (N.to_nat _idx) = None)
      by (apply nth_error_None; unfold players_length in Hge; lia).
    rewrite E. reflexivity.
  - intros Hlt.
    assert (Hpos : (0 <? players_length c) = true) by (apply N.ltb_lt; lia).
    rewrite Hpos. simpl.
    destruct (nth_error (s_players c) (N.to_nat _idx)) as [player|] eqn:E.
    + exists player. split; reflexivity.
    + apply nth_error_None in E. unfold players_length in Hlt. lia.
Qed.

Lemma getPlayer_bounds_witness :
  getPlayer 0 (set_players [] sample_raffle)
    = Revert (ErrorString "No players participated!") []
  /\ getPlayer 4 sample_raffle = Revert (Panic PANIC_OUT_OF_BOUNDS) []
  /\ exists player,
       nth_error (s_players sample_raffle) (N.to_nat 3) = Some player
       /\ getPlayer 3 sample_raffle = Ok player sample_raffle [].
Proof.
  split.
  { apply (proj1 (getPlayer_bounds 0 (set_players [] sample_raffle))).
    reflexivity. }
  split.
  { apply (proj1 (proj2 (getPlayer_bounds 4 sample_raffle)));
      [discriminate | vm_compute; discriminate]. }
  apply (proj2 (proj2 (getPlayer_bounds 3 sample_raffle))). reflexivity.
Defined.

(** ** getRecentWinner *)

(** What one transaction does to [s_recentWinner]: it becomes the winner
    of the round the transaction completes, and stays as it is when the
    transaction completes none. *)
Lemma transact_recentWinner c step :
  s_recentWinner (transact c step)
  = match round_winner c step with
    | Some winner => winner
    | None => s_recentWinner c
    end.
Proof.
  destruct step as [env [|performData|requestId randomWords]];
    transact_unfold.
  - rewrite enterRaffle_eval.
    destruct (msg_value env <? i_entranceFee c); simpl; [reflexivity|].
    destruct (RaffleState_eqb (s_raffleState c) CALCULATING); reflexivity.
  - destruct (performUpkeep env performData c) as [[] c' tr|e tr] eqn:E;
      simpl; [|reflexivity].
    apply performUpkeep_returns in E. destruct E as (_ & _ & _ & ->).
    reflexivity.
  - destruct randomWords as [|word rest];
      [rewrite fulfillRandomWords_no_words; reflexivity|].
    destruct (s_players c) as [|p ps] eqn:Ep.
    + rewrite (fulfillRandomWords_no_players _ _ _ _ Ep). reflexivity.
    + assert (Hne : s_players c <> []) by congruence.
      destruct (winner_index_in_bounds word (s_players c) Hne) as [w Hw].
      fold (players_length c) in Hw. rewrite <- Ep.
      rewrite (fulfillRandomWords_eval env requestId word rest c w Hw).
      destruct (call_success env w (balance c)); simpl;
        [rewrite Hw|]; reflexivity.
Qed.

Lemma transacts_recentWinner steps : forall c w (zero : address),
  match w with Some winner => winner | None => zero end = s_recentWinner c ->
  match latest_winner w c steps with Some winner => winner | None => zero end
  = s_recentWinner (transacts c steps).
Proof.
  induction steps as [|step rest IH]; intros c w zero Hw; simpl.
  - exact Hw.
  - apply IH. rewrite transact_recentWinner.
    destruct (round_winner c step); [reflexivity | exact Hw].
Qed.

(** C9.  From deployment on, after any history of transactions,
    [getRecentWinner] returns without failing and without changing the
    state: the zero address as long as no round has been completed, and
    otherwise the winner of the most recently completed round, whatever
    happened since (entries, a new trigger, failed deliveries). *)
Theorem getRecentWinner_latest_round env coord fee keyHash subId gasLimit
    interval funds steps :
  getRecentWinner
    (transacts
       (constructor env coord fee keyHash subId gasLimit interval funds) steps)
  = Ok match latest_winner None
               (constructor env coord fee keyHash subId gasLimit interval
                  funds) steps
       with
       | Some winner => winner
       | None => 0
       end
      (transacts
         (constructor env coord fee keyHash subId gasLimit interval funds)
         steps)
      [].
Proof.
  unfold getRecentWinner. sol_unfold. simpl. f_equal.
  symmetry. apply transacts_recentWinner. reflexivity.
Qed.

(** ** Worked rounds *)

(** One player: an entry, no upkeep before the interval has passed, upkeep
    after it, a trigger, and a delivery of the word 7, which selects index
    7 mod 1 = 0 and pays the single entrant the whole pool. *)
Example round_with_one_player :
  let entry := {| block_timestamp := 910; msg_sender := 11; msg_value := 100;
                  call_success := fun _ _ => true; vrf_requestId := None |} in
  let c1 := transact sample_deployed (entry, EnterRaffle) in
  let c2 := transact c1 (sample_env_keeper, PerformUpkeep EmptyString) in
  checkUpkeep entry EmptyString c1 = Ok (false, "0x0"%string) c1 []
  /\ checkUpkeep sample_env EmptyString c1 = Ok (true, "0x0"%string) c1 []
  /\ s_raffleState c2 = CALCULATING
  /\ fulfillRandomWords sample_env 1 [7] c2
     = Ok tt
         {| i_entranceFee := 100; s_players := []; s_recentWinner := 11;
            i_vrfCoordinator := 7; i_keyHash := 9; i_subscriptionId := 8106;
            i_callbackGasLimit := 500000; s_raffleState := OPEN;
            i_interval := 30; s_lastTimeStamp := 1000; balance := 0 |}
         [CallValue 11 100; Emit (WinnerPicked 11)].
Proof. repeat split. Qed.

(** Four players and the word 5: index 5 mod 4 = 1, the second entrant
    receives the pool of 400. *)
Example round_with_four_players :
  fulfillRandomWords sample_env 1 [5] sample_calculating
  = Ok tt
      {| i_entranceFee := 100; s_players := []; s_recentWinner := 22;
         i_vrfCoordinator := 7; i_keyHash := 9; i_subscriptionId := 8106;
         i_callbackGasLimit := 500000; s_raffleState := OPEN;
         i_interval := 30; s_lastTimeStamp := 1000; balance := 0 |}
      [CallValue 22 400; Emit (WinnerPicked 22)].
Proof. reflexivity. Qed.

(** The recent winner over two rounds: zero before the first delivery,
    the first winner until the second delivery, also while the second
    round is open and while it is calculating. *)
Example recent_winner_over_two_rounds :
  let deliver := (sample_env, FulfillRandomWords 1 [5]) in
  let later := {| block_timestamp := 1100; msg_sender := 33; msg_value := 100;
                  call_success := fun _ _ => true; vrf_requestId := Some 2 |} in
  let keeper := {| block_timestamp := 1100; msg_sender := 99;
                   msg_value := 0; call_success := fun _ _ => true;
                   vrf_requestId := Some 2 |} in
  let round1 := sample_history ++ [deliver] in
  let round2_open := round1 ++ [(later, EnterRaffle)] in
  let round2_calculating :=
    round2_open ++ [(keeper, PerformUpkeep EmptyString)] in
  let round2 :=
    round2_calculating ++ [(later, FulfillRandomWords 2 [8])] in
  s_recentWinner (transacts sample_deployed sample_history) = 0
  /\ s_recentWinner (transacts sample_deployed round1) = 22
  /\ s_recentWinner (transacts sample_deployed round2_open) = 22
  /\ s_raffleState (transacts sample_deployed round2_calculating)
     = CALCULATING
  /\ s_recentWinner (transacts sample_deployed round2_calculating) = 22
  /\ s_recentWinner (transacts sample_deployed round2) = 33
  /\ latest_winner None sample_deployed round2 = Some 33.
Proof. repeat split. Qed.

(** The four conditions of [checkUpkeep], as propositions. *)
Lemma checkUpkeep_ready_conditions env checkData c :
  checkUpkeep env checkData c = Ok (true, "0x0"%string) c [] <->
  s_raffleState c = OPEN
  /\ s_lastTimeStamp c + i_interval c < block_timestamp env
  /\ 0 < players_length c
  /\ 0 < balance c.
Proof.
  rewrite checkUpkeep_eval.
  destruct (RaffleState_eqb (s_raffleState c) OPEN) eqn:Es; simpl.
  - apply RaffleState_eqb_eq in Es.
    destruct (N.ltb_spec (block_timestamp env) (s_lastTimeStamp c)).
    + split; [discriminate | intros (_ & Ht & _); lia].
    + destruct (N.ltb_spec (i_interval c)
                  (block_timestamp env - s_lastTimeStamp c));
      destruct (N.ltb_spec 0 (players_length c));
      destruct (N.ltb_spec 0 (balance c)); simpl;
      (split; [intros E; try discriminate E; repeat split; (assumption || lia)
              | intros (_ & Ht & Hp & Hb); try reflexivity; lia]).
  - split; [discriminate|].
    intros (Ho & _). apply RaffleState_eqb_eq in Ho. congruence.
Qed.

(** A returning [performUpkeep] had [checkUpkeep] say yes. *)
Lemma performUpkeep_returns_ready env performData c c' tr :
  performUpkeep env performData c = Ok tt c' tr ->
  checkUpkeep env EmptyString c = Ok (true, "0x0"%string) c []
  /\ c' = set_raffleState CALCULATING c.
Proof.
  rewrite performUpkeep_eval, checkUpkeep_eval.
  destruct (negb (msg_value env =? 0)); [discriminate|].
  destruct (RaffleState_eqb (s_raffleState c) OPEN
            && (block_timestamp env <? s_lastTimeStamp c));
    [discriminate|].
  destruct (RaffleState_eqb (s_raffleState c) OPEN
            && (i_interval c <? block_timestamp env - s_lastTimeStamp c)
            && (0 <? players_length c) && (0 <? balance c)).
  - destruct (vrf_requestId env); [|discriminate].
    intros E. injection E as <- <-. auto.
  - destruct (block_timestamp env <? s_lastTimeStamp c); discriminate.
Qed.

(** * Further properties of the contract *)

(** ** Triggering a round *)

(** X1.  [performUpkeep] returns exactly when the call carries no value,
    [checkUpkeep] returns true and the coordinator answers the request.
    It has then changed nothing but the raffle state, now CALCULATING, has
    made one request with the key hash, subscription id and gas limit of
    the deployment, 3 confirmations and 1 word, and has emitted the
    request id it got. *)
Theorem performUpkeep_returns_iff env performData c c' tr :
  performUpkeep env performData c = Ok tt c' tr <->
  msg_value env = 0
  /\ checkUpkeep env EmptyString c = Ok (true, "0x0"%string) c []
  /\ exists requestId,
       vrf_requestId env = Some requestId
       /\ c' = set_raffleState CALCULATING c
       /\ tr = [RequestRandomWords (i_keyHash c) (i_subscriptionId c) 3
                  (i_callbackGasLimit c) 1;
                Emit (RequestedRaffleWinner requestId)].
Proof.
  rewrite performUpkeep_eval, checkUpkeep_eval.
  destruct (N.eqb_spec (msg_value env) 0) as [Hv|Hv]; simpl.
  2:{ split; [discriminate | intros [E _]; congruence]. }
  destruct (RaffleState_eqb (s_raffleState c) OPEN
            && (block_timestamp env <? s_lastTimeStamp c)).
  { split; [discriminate | intros (_ & E & _); discriminate E]. }
  destruct (RaffleState_eqb (s_raffleState c) OPEN
            && (i_interval c <? block_timestamp env - s_lastTimeStamp c)
            && (0 <? players_length c) && (0 <? balance c)).
  - destruct (vrf_requestId env) as [requestId|].
    + split.
      * intros E. injection E as <- <-.
        split; [exact Hv|]. split; [reflexivity|].
        exists requestId. repeat split.
      * intros (_ & _ & requestId' & E & -> & ->).
        injection E as <-. reflexivity.
    + split; [discriminate|]. intros (_ & _ & requestId' & E & _).
      discriminate E.
  - split.
    + destruct (block_timestamp env <? s_lastTimeStamp c); discriminate.
    + intros (_ & E & _). discriminate E.
Qed.

Lemma performUpkeep_returns_iff_witness :
  performUpkeep sample_env_keeper EmptyString sample_raffle
  = Ok tt sample_calculating
      [RequestRandomWords 9 8106 3 500000 1; Emit (RequestedRaffleWinner 1)].
Proof.
  apply (proj2 (performUpkeep_returns_iff sample_env_keeper EmptyString
                  sample_raffle sample_calculating
                  [RequestRandomWords 9 8106 3 500000 1;
                   Emit (RequestedRaffleWinner 1)])).
  split; [reflexivity|]. split; [reflexivity|]. exists 1. repeat split.
Defined.

(** X2.  When a call without value finds upkeep needed but the
    coordinator rejects the request, [performUpkeep] reverts with the
    coordinator's failure after that one request, and the transaction
    keeps nothing of the body's switch to CALCULATING: the state is the
    one before the call, the raffle open. *)
Theorem performUpkeep_coordinator_reverts env performData c :
  msg_value env = 0 ->
  checkUpkeep env EmptyString c = Ok (true, "0x0"%string) c [] ->
  vrf_requestId env = None ->
  performUpkeep env performData c
  = Revert CoordinatorReverted
      [RequestRandomWords (i_keyHash c) (i_subscriptionId c) 3
         (i_callbackGasLimit c) 1]
  /\ transact c (env, PerformUpkeep performData) = c
  /\ s_raffleState (transact c (env, PerformUpkeep performData)) = OPEN.
Proof.
  intros Hvalue Hready Hvrf.
  assert (E : performUpkeep env performData c
              = Revert CoordinatorReverted
                  [RequestRandomWords (i_keyHash c) (i_subscriptionId c) 3
                     (i_callbackGasLimit c) 1]).
  { revert Hready. rewrite performUpkeep_eval, checkUpkeep_eval, Hvalue.
    simpl negb. cbv iota.
    destruct (RaffleState_eqb (s_raffleState c) OPEN
              && (block_timestamp env <? s_lastTimeStamp c));
      [discriminate|].
    destruct (RaffleState_eqb (s_raffleState c) OPEN
              && (i_interval c <? block_timestamp env - s_lastTimeStamp c)
              && (0 <? players_length c) && (0 <? balance c));
      [|discriminate].
    rewrite Hvrf. reflexivity. }
  assert (Ho : s_raffleState c = OPEN).
  { apply (proj1 (checkUpkeep_ready_conditions env EmptyString c)) in Hready.
    tauto. }
  unfold transact. cbn [dispatch fst snd]. rewrite E. simpl. auto.
Qed.

Lemma performUpkeep_coordinator_reverts_witness :
  msg_value sample_env_no_coordinator = 0
  /\ checkUpkeep sample_env_no_coordinator EmptyString sample_raffle
     = Ok (true, "0x0"%string) sample_raffle []
  /\ vrf_requestId sample_env_no_coordinator = None
  /\ performUpkeep sample_env_no_coordinator EmptyString sample_raffle
     = Revert CoordinatorReverted [RequestRandomWords 9 8106 3 500000 1]
  /\ transact sample_raffle
       (sample_env_no_coordinator, PerformUpkeep EmptyString)
     = sample_raffle.
Proof.
  pose proof (performUpkeep_coordinator_reverts sample_env_no_coordinator
                EmptyString sample_raffle eq_refl eq_refl eq_refl) as H.
  exact (conj eq_refl (conj eq_refl (conj eq_refl
           (conj (proj1 H) (proj1 (proj2 H)))))).
Defined.

(** ** Entering *)

(** X3.  [enterRaffle] returns exactly when the value sent covers the
    entrance fee and the raffle is OPEN.  There is no upper bound on the
    value: whatever is sent above the fee stays in the balance. *)
Theorem enterRaffle_returns_iff env c :
  (exists c' tr, enterRaffle env c = Ok tt c' tr) <->
  i_entranceFee c <= msg_value env /\ s_raffleState c = OPEN.
Proof.
  rewrite enterRaffle_eval.
  destruct (N.ltb_spec (msg_value env) (i_entranceFee c)) as [Hlt|Hge].
  - split.
    + intros (c' & tr & E). discriminate E.
    + intros [Hle _]. lia.
  - destruct (s_raffleState c) eqn:Es; simpl.
    + split; [auto | eauto].
    + split.
      * intros (c' & tr & E). discriminate E.
      * intros [_ E]. discriminate E.
Qed.

Lemma enterRaffle_returns_iff_witness :
  exists c' tr, enterRaffle sample_env_overpaying sample_raffle = Ok tt c' tr.
Proof.
  apply (proj2 (enterRaffle_returns_iff sample_env_overpaying sample_raffle)).
  split; [vm_compute; discriminate | reflexivity].
Defined.

(** ** Invariants along histories *)

Lemma players_length_app c (player : address) :
  N.of_nat (List.length (s_players c ++ [player])) = players_length c + 1.
Proof. unfold players_length. rewrite length_app. simpl. lia. Qed.

Lemma transact_keeps_cover c step :
  i_entranceFee c * players_length c <= balance c ->
  i_entranceFee (transact c step) * players_length (transact c step)
  <= balance (transact c step).
Proof.
  intros Inv. destruct step as [env [|performData|requestId randomWords]];
    transact_unfold.
  - rewrite enterRaffle_eval.
    destruct (N.ltb_spec (msg_value env) (i_entranceFee c)); simpl;
      [exact Inv|].
    destruct (RaffleState_eqb (s_raffleState c) CALCULATING); simpl;
      [exact Inv|].
    unfold players_length at 1. simpl. rewrite players_length_app. nia.
  - destruct (performUpkeep env performData c) as [[] c' tr|e tr] eqn:E;
      simpl; [|exact Inv].
    apply performUpkeep_returns in E. destruct E as (_ & _ & _ & ->).
    exact Inv.
  - destruct randomWords as [|word rest];
      [rewrite fulfillRandomWords_no_words; exact Inv|].
    destruct (s_players c) as [|p ps] eqn:Ep.
    + rewrite (fulfillRandomWords_no_players _ _ _ _ Ep). exact Inv.
    + assert (Hne : s_players c <> []) by congruence.
      destruct (winner_index_in_bounds word (s_players c) Hne) as [w Hw].
      fold (players_length c) in Hw.
      rewrite (fulfillRandomWords_eval env requestId word rest c w Hw).
      destruct (call_success env w (balance c)); simpl; [|exact Inv].
      unfold players_length. simpl. lia.
Qed.

(** X4.  In every state reachable from a deployment the balance covers
    one entrance fee for every player in the list: entries add at least
    the fee, a paid-out round empties list and balance together, and
    nothing else moves either. *)
Theorem reachable_balance_covers_entries c :
  reachable c -> i_entranceFee c * players_length c <= balance c.
Proof.
  induction 1 as [env coord fee keyHash subId gasLimit interval funds
                 | c step Hr IH].
  - unfold players_length. simpl. lia.
  - now apply transact_keeps_cover.
Qed.

Lemma reachable_balance_covers_entries_witness :
  reachable sample_history_state
  /\ i_entranceFee sample_history_state
     * players_length sample_history_state
     <= balance sample_history_state.
Proof.
  assert (Hr : reachable sample_history_state).
  { unfold sample_history_state, sample_history, transacts. simpl fold_left.
    do 3 apply reachable_transact. apply reachable_deployed. }
  exact (conj Hr (reachable_balance_covers_entries sample_history_state Hr)).
Defined.

Lemma transact_immutables c step :
  i_entranceFee (transact c step) = i_entranceFee c
  /\ i_interval (transact c step) = i_interval c
  /\ i_vrfCoordinator (transact c step) = i_vrfCoordinator c
  /\ i_keyHash (transact c step) = i_keyHash c
  /\ i_subscriptionId (transact c step) = i_subscriptionId c
  /\ i_callbackGasLimit (transact c step) = i_callbackGasLimit c.
Proof.
  destruct step as [env [|performData|requestId randomWords]];
    transact_unfold.
  - rewrite enterRaffle_eval.
    destruct (msg_value env <? i_entranceFee c); simpl; [repeat split|].
    destruct (RaffleState_eqb (s_raffleState c) CALCULATING); simpl;
      repeat split.
  - destruct (performUpkeep env performData c) as [[] c' tr|e tr] eqn:E;
      simpl; [|repeat split].
    apply performUpkeep_returns in E. destruct E as (_ & _ & _ & ->).
    repeat split.
  - destruct randomWords as [|word rest];
      [rewrite fulfillRandomWords_no_words; repeat split|].
    destruct (s_players c) as [|p ps] eqn:Ep.
    + rewrite (fulfillRandomWords_no_players _ _ _ _ Ep). repeat split.
    + assert (Hne : s_players c <> []) by congruence.
      destruct (winner_index_in_bounds word (s_players c) Hne) as [w Hw].
      fold (players_length c) in Hw.
      rewrite (fulfillRandomWords_eval env requestId word rest c w Hw).
      destruct (call_success env w (balance c)); simpl; repeat split.
Qed.

Lemma transacts_immutables steps : forall c,
  i_entranceFee (transacts c steps) = i_entranceFee c
  /\ i_interval (transacts c steps) = i_interval c
  /\ i_vrfCoordinator (transacts c steps) = i_vrfCoordinator c
  /\ i_keyHash (transacts c steps) = i_keyHash c
  /\ i_subscriptionId (transacts c steps) = i_subscriptionId c
  /\ i_callbackGasLimit (transacts c steps) = i_callbackGasLimit c.
Proof.
  induction steps as [|step rest IH]; intros c; simpl.
  - repeat split.
  - destruct (IH (transact c step)) as (-> & -> & -> & -> & -> & ->).
    apply transact_immutables.
Qed.

(** X5.  The parameters given to the constructor stay for good: after
    any history of transactions [getEntranceFee] and [getInterval] return
    the constructor's fee and interval, and the coordinator, key hash,
    subscription id and gas limit are the constructor's. *)
Theorem constructor_parameters_persist env coord fee keyHash subId gasLimit
    interval funds steps :
  getEntranceFee
    (transacts (constructor env coord fee keyHash subId gasLimit interval
                  funds) steps)
  = Ok fee
      (transacts (constructor env coord fee keyHash subId gasLimit interval
                    funds) steps) []
  /\ getInterval
       (transacts (constructor env coord fee keyHash subId gasLimit interval
                     funds) steps)
     = Ok interval
         (transacts (constructor env coord fee keyHash subId gasLimit
                       interval funds) steps) []
  /\ i_vrfCoordinator
       (transacts (constructor env coord fee keyHash subId gasLimit interval
                     funds) steps) = coord
  /\ i_keyHash
       (transacts (constructor env coord fee keyHash subId gasLimit interval
                     funds) steps) = keyHash
  /\ i_subscriptionId
       (transacts (constructor env coord fee keyHash subId gasLimit interval
                     funds) steps) = subId
  /\ i_callbackGasLimit
       (transacts (constructor env coord fee keyHash subId gasLimit interval
                     funds) steps) = gasLimit.
Proof.
  destruct (transacts_immutables steps
              (constructor env coord fee keyHash subId gasLimit interval
                 funds)) as (Hfee & Hint & Hcoord & Hkey & Hsub & Hgas).
  unfold getEntranceFee, getInterval. sol_unfold.
  rewrite Hfee, Hint. simpl in *. auto 10.
Qed.

(** ** The two phases *)

(** X6.  While the raffle is CALCULATING every entry is refused and every
    further trigger is refused before it reaches the coordinator, so there
    is never a second request for the same round; the only transaction
    that changes anything is a delivery that pays out, and it leaves the
    raffle open with no player and no balance. *)
Theorem calculating_changes_only_by_delivery c :
  s_raffleState c = CALCULATING ->
  (forall env, exists e, enterRaffle env c = Revert e [])
  /\ (forall env performData,
        exists e, performUpkeep env performData c = Revert e [])
  /\ (forall step,
        transact c step = c
        \/ exists requestId randomWords,
             snd step = FulfillRandomWords requestId randomWords
             /\ s_raffleState (transact c step) = OPEN
             /\ s_players (transact c step) = []
             /\ balance (transact c step) = 0).
Proof.
  intros Hs.
  assert (Henter : forall env, exists e, enterRaffle env c = Revert e []).
  { intros env. rewrite enterRaffle_eval, Hs. simpl.
    destruct (msg_value env <? i_entranceFee c); eauto. }
  assert (Hperform : forall env performData,
             exists e, performUpkeep env performData c = Revert e []).
  { intros env performData. rewrite performUpkeep_eval, Hs. simpl.
    destruct (negb (msg_value env =? 0)); [eauto|].
    destruct (block_timestamp env <? s_lastTimeStamp c); eauto. }
  split; [exact Henter|]. split; [exact Hperform|].
  intros [env [|performData|requestId randomWords]]; transact_unfold.
  - destruct (Henter env) as [e ->]. auto.
  - destruct (Hperform env performData) as [e ->]. auto.
  - destruct randomWords as [|word rest];
      [rewrite fulfillRandomWords_no_words; auto|].
    destruct (s_players c) as [|p ps] eqn:Ep.
    + rewrite (fulfillRandomWords_no_players _ _ _ _ Ep). auto.
    + assert (Hne : s_players c <> []) by congruence.
      destruct (winner_index_in_bounds word (s_players c) Hne) as [w Hw].
      fold (players_length c) in Hw.
      rewrite (fulfillRandomWords_eval env requestId word rest c w Hw).
      destruct (call_success env w (balance c)); simpl; [|auto].
      right. exists requestId, (word :: rest). auto.
Qed.

Lemma calculating_changes_only_by_delivery_witness :
  s_raffleState sample_calculating = CALCULATING
  /\ (exists e, enterRaffle sample_env sample_calculating = Revert e [])
  /\ (exists e,
        performUpkeep sample_env EmptyString sample_calculating = Revert e []).
Proof.
  pose proof (calculating_changes_only_by_delivery sample_calculating
                eq_refl) as H.
  exact (conj eq_refl
           (conj (proj1 H sample_env)
              (proj1 (proj2 H) sample_env EmptyString))).
Defined.

(** X7.  An open raffle becomes CALCULATING only by a [performUpkeep]
    that returns, and then there is a player, a balance, and more than the
    interval has passed since [s_lastTimeStamp]; entries and deliveries
    leave an open raffle open. *)
Theorem open_closes_only_by_upkeep c step :
  s_raffleState c = OPEN ->
  s_raffleState (transact c step) = CALCULATING ->
  exists performData,
    snd step = PerformUpkeep performData
    /\ transact c step = set_raffleState CALCULATING c
    /\ 0 < players_length c
    /\ 0 < balance c
    /\ s_lastTimeStamp c + i_interval c < block_timestamp (fst step).
Proof.
  intros Ho. destruct step as [env [|performData|requestId randomWords]];
    transact_unfold.
  - rewrite enterRaffle_eval, Ho. simpl.
    destruct (msg_value env <? i_entranceFee c); simpl; congruence.
  - destruct (performUpkeep env performData c) as [[] c' tr|e tr] eqn:E;
      simpl; [|congruence].
    apply performUpkeep_returns_ready in E.
    destruct E as (Hready & ->).
    apply checkUpkeep_ready_conditions in Hready.
    intros _. exists performData. tauto.
  - destruct randomWords as [|word rest];
      [rewrite fulfillRandomWords_no_words; simpl; congruence|].
    destruct (s_players c) as [|p ps] eqn:Ep.
    + rewrite (fulfillRandomWords_no_players _ _ _ _ Ep). simpl. congruence.
    + assert (Hne : s_players c <> []) by congruence.
      destruct (winner_index_in_bounds word (s_players c) Hne) as [w Hw].
      fold (players_length c) in Hw.
      rewrite (fulfillRandomWords_eval env requestId word rest c w Hw).
      destruct (call_success env w (balance c)); simpl; congruence.
Qed.

Lemma open_closes_only_by_upkeep_witness :
  s_raffleState sample_raffle = OPEN
  /\ s_raffleState
       (transact sample_raffle (sample_env_keeper, PerformUpkeep EmptyString))
     = CALCULATING
  /\ exists performData,
       PerformUpkeep EmptyString = PerformUpkeep performData
       /\ transact sample_raffle (sample_env_keeper, PerformUpkeep EmptyString)
          = set_raffleState CALCULATING sample_raffle
       /\ 0 < players_length sample_raffle
       /\ 0 < balance sample_raffle
       /\ s_lastTimeStamp sample_raffle + i_interval sample_raffle
          < block_timestamp sample_env_keeper.
Proof.
  exact (conj eq_refl (conj eq_refl
           (open_closes_only_by_upkeep sample_raffle
              (sample_env_keeper, PerformUpkeep EmptyString) eq_refl eq_refl))).
Defined.

(** ** Deliveries *)

(** How a delivery that returns looks, whatever it was called with. *)
Lemma fulfillRandomWords_returns env requestId randomWords c c' tr :
  fulfillRandomWords env requestId randomWords c = Ok tt c' tr ->
  exists word rest winner,
    randomWords = word :: rest
    /\ nth_error (s_players c) (N.to_nat (word mod players_length c))
       = Some winner
    /\ call_success env winner (balance c) = true
    /\ s_recentWinner c' = winner
    /\ s_players c' = []
    /\ s_raffleState c' = OPEN
    /\ s_lastTimeStamp c' = block_timestamp env
    /\ balance c' = 0
    /\ tr = [CallValue winner (balance c); Emit (WinnerPicked winner)].
Proof.
  destruct randomWords as [|word rest];
    [rewrite fulfillRandomWords_no_words; discriminate|].
  destruct (s_players c) as [|p ps] eqn:Ep.
  { rewrite (fulfillRandomWords_no_players _ _ _ _ Ep). discriminate. }
  assert (Hne : s_players c <> []) by congruence.
  destruct (winner_index_in_bounds word (s_players c) Hne) as [w Hw].
  fold (players_length c) in Hw. rewrite <- Ep.
  rewrite (fulfillRandomWords_eval env requestId word rest c w Hw).
  destruct (call_success env w (balance c)) eqn:Hc; [|discriminate].
  intros E. injection E as <- <-.
  exists word, rest, w. simpl. repeat split; assumption.
Qed.

(** X8.  Whoever a returning delivery records as the recent winner was in
    the list of players when it was called, and the one payment it made is
    the whole balance, to that player. *)
Theorem winner_is_a_player env requestId randomWords c c' tr :
  fulfillRandomWords env requestId randomWords c = Ok tt c' tr ->
  In (s_recentWinner c') (s_players c)
  /\ tr = [CallValue (s_recentWinner c') (balance c);
           Emit (WinnerPicked (s_recentWinner c'))].
Proof.
  intros E. apply fulfillRandomWords_returns in E.
  destruct E as (word & rest & winner & _ & Hw & _ & -> & _ & _ & _ & _ & ->).
  split; [|reflexivity].
  eapply nth_error_In. exact Hw.
Qed.

Lemma winner_is_a_player_witness :
  In (s_recentWinner
        (transact sample_calculating (sample_env, FulfillRandomWords 1 [5])))
     (s_players sample_calculating).
Proof.
  exact (proj1 (winner_is_a_player sample_env 1 [5] sample_calculating
                  (transact sample_calculating
                     (sample_env, FulfillRandomWords 1 [5]))
                  [CallValue 22 400; Emit (WinnerPicked 22)] eq_refl)).
Defined.

(** X9.  A delivery depends on the random words only through the first
    word modulo the number of players: two deliveries whose first words
    agree modulo that number have the same outcome, whatever words
    follow. *)
Theorem fulfillRandomWords_first_word_modulo env requestId requestId'
    (word word' : uint256) (rest rest' : list uint256) c :
  word mod players_length c = word' mod players_length c ->
  fulfillRandomWords env requestId (word :: rest) c
  = fulfillRandomWords env requestId' (word' :: rest') c.
Proof.
  intros Hmod.
  destruct (s_players c) as [|p ps] eqn:Ep.
  - rewrite !(fulfillRandomWords_no_players _ _ _ _ Ep). reflexivity.
  - assert (Hne : s_players c <> []) by congruence.
    destruct (winner_index_in_bounds word (s_players c) Hne) as [w Hw].
    fold (players_length c) in Hw.
    rewrite (fulfillRandomWords_eval env requestId word rest c w Hw).
    rewrite Hmod in Hw.
    rewrite (fulfillRandomWords_eval env requestId' word' rest' c w Hw).
    reflexivity.
Qed.

Lemma fulfillRandomWords_first_word_modulo_witness :
  5 mod players_length sample_calculating
  = 13 mod players_length sample_calculating
  /\ fulfillRandomWords sample_env 1 [5] sample_calculating
     = fulfillRandomWords sample_env 2 [13; 7] sample_calculating.
Proof.
  exact (conj eq_refl
           (fulfillRandomWords_first_word_modulo sample_env 1 2 5 13 [] [7]
              sample_calculating eq_refl)).
Defined.

(** X10.  [fulfillRandomWords] does not look at the raffle state: called
    on an open raffle it does exactly what it does on a calculating one
    with the same players and balance. *)
Theorem fulfillRandomWords_any_phase env requestId randomWords phase c :
  fulfillRandomWords env requestId randomWords (set_raffleState phase c)
  = fulfillRandomWords env requestId randomWords c.
Proof.
  destruct randomWords as [|word rest].
  - rewrite !fulfillRandomWords_no_words. reflexivity.
  - destruct (s_players c) as [|p ps] eqn:Ep.
    + rewrite (fulfillRandomWords_no_players _ _ _ c Ep).
      apply fulfillRandomWords_no_players. exact Ep.
    + assert (Hne : s_players c <> []) by congruence.
      destruct (winner_index_in_bounds word (s_players c) Hne) as [w Hw].
      fold (players_length c) in Hw.
      rewrite (fulfillRandomWords_eval env requestId word rest c w Hw).
      rewrite (fulfillRandomWords_eval env requestId word rest
                 (set_raffleState phase c) w Hw).
      reflexivity.
Qed.

(** ** Time *)

(** X11.  Along a chain, whose block times never decrease, the last time
    stamp never goes back and is never ahead of the block a transaction
    runs in. *)
Theorem lastTimeStamp_monotone t c step :
  reachable_at t c ->
  t <= block_timestamp (fst step) ->
  s_lastTimeStamp c <= s_lastTimeStamp (transact c step)
  /\ s_lastTimeStamp (transact c step) <= block_timestamp (fst step).
Proof.
  intros Hr Ht. apply reachable_at_lastTimeStamp in Hr.
  destruct step as [env tx]. simpl in *.
  destruct (transact_lastTimeStamp c env tx) as [-> | ->]; lia.
Qed.

Lemma lastTimeStamp_monotone_witness :
  reachable_at 900 sample_deployed
  /\ 900 <= block_timestamp sample_env
  /\ s_lastTimeStamp sample_deployed
     <= s_lastTimeStamp (transact sample_deployed (sample_env, EnterRaffle))
  /\ s_lastTimeStamp (transact sample_deployed (sample_env, EnterRaffle))
     <= block_timestamp sample_env.
Proof.
  assert (Hr : reachable_at 900 sample_deployed)
    by exact (reachable_at_deployed
                {| block_timestamp := 900; msg_sender := 1; msg_value := 0;
                   call_success := fun _ _ => true; vrf_requestId := None |}
                7 100 9 8106 500000 30 0).
  assert (Ht : 900 <= block_timestamp sample_env)
    by (vm_compute; discriminate).
  exact (conj Hr (conj Ht
           (lastTimeStamp_monotone 900 sample_deployed
              (sample_env, EnterRaffle) Hr Ht))).
Defined.

(** X12.  On a chain the checked subtraction never underflows:
    [checkUpkeep] always returns, and a [performUpkeep] that fails does so
    in one of three ways: without data, the call having carried value;
    with [UpkeepNotNeeded], carrying balance, number of players, state and
    time passed; or with the coordinator's own failure.  It never
    panics. *)
Theorem on_chain_upkeep_never_panics t c env :
  reachable_at t c ->
  t <= block_timestamp env ->
  (forall checkData,
     exists upkeepNeeded,
       checkUpkeep env checkData c = Ok (upkeepNeeded, "0x0"%string) c [])
  /\ (forall performData e tr,
        performUpkeep env performData c = Revert e tr ->
        (e = EmptyRevert /\ msg_value env <> 0)
        \/ (e = UpkeepNotNeeded (balance c) (players_length c)
                  (RaffleState_to_uint256 (s_raffleState c))
                  (block_timestamp env - s_lastTimeStamp c)
            /\ msg_value env = 0)
        \/ (e = CoordinatorReverted /\ msg_value env = 0)).
Proof.
  intros Hr Ht. apply reachable_at_lastTimeStamp in Hr.
  assert (Hlt : (block_timestamp env <? s_lastTimeStamp c) = false)
    by (apply N.ltb_ge; lia).
  split.
  - intros checkData. rewrite checkUpkeep_eval, Hlt, andb_false_r. eauto.
  - intros performData e tr.
    rewrite performUpkeep_eval, Hlt, andb_false_r.
    destruct (N.eqb_spec (msg_value env) 0) as [Hv|Hv]; simpl.
    2:{ intros E. injection E as <- _. auto. }
    destruct (RaffleState_eqb (s_raffleState c) OPEN
              && (i_interval c <? block_timestamp env - s_lastTimeStamp c)
              && (0 <? players_length c) && (0 <? balance c)).
    + destruct (vrf_requestId env); [discriminate|].
      intros E. injection E as <- _. auto.
    + intros E. injection E as <- _. auto.
Qed.

Lemma on_chain_upkeep_never_panics_witness :
  reachable_at 900 sample_deployed
  /\ 900 <= block_timestamp sample_env
  /\ exists upkeepNeeded,
       checkUpkeep sample_env EmptyString sample_deployed
       = Ok (upkeepNeeded, "0x0"%string) sample_deployed [].
Proof.
  assert (Hr : reachable_at 900 sample_deployed)
    by exact (reachable_at_deployed
                {| block_timestamp := 900; msg_sender := 1; msg_value := 0;
                   call_success := fun _ _ => true; vrf_requestId := None |}
                7 100 9 8106 500000 30 0).
  assert (Ht : 900 <= block_timestamp sample_env)
    by (vm_compute; discriminate).
  exact (conj Hr (conj Ht
           (proj1 (on_chain_upkeep_never_panics 900 sample_deployed
                     sample_env Hr Ht) EmptyString))).
Defined.

(** ** Entries as seen through the getters *)

Lemma getPlayer_eval (_idx : uint256) c :
  getPlayer _idx c =
  if 0 <? players_length c
  then match nth_error (s_players c) (N.to_nat _idx) with
       | Some player => Ok player c []
       | None => Revert (Panic PANIC_OUT_OF_BOUNDS) []
       end
  else Revert (ErrorString "No players participated!") [].
Proof.
  unfold getPlayer. sol_unfold.
  destruct (0 <? players_length c); simpl; [|reflexivity].
  destruct (nth_error (s_players c) (N.to_nat _idx)); reflexivity.
Qed.

(** X13.  After an entry that returns, the number of players is one more,
    the new last index holds the caller, and every index that held a
    player before holds the same player. *)
Theorem enterRaffle_then_getPlayer env c c' tr :
  enterRaffle env c = Ok tt c' tr ->
  getNumberOfPlayers c' = Ok (players_length c + 1) c' []
  /\ getPlayer (players_length c) c' = Ok (msg_sender env) c' []
  /\ forall i player,
       getPlayer i c = Ok player c [] -> getPlayer i c' = Ok player c' [].
Proof.
  rewrite enterRaffle_eval.
  destruct (msg_value env <? i_entranceFee c); [discriminate|].
  destruct (RaffleState_eqb (s_raffleState c) CALCULATING); [discriminate|].
  intros E. injection E as <- _.
  match goal with |- context [getNumberOfPlayers ?r] => set (c1 := r) end.
  assert (Hp : s_players c1 = s_players c ++ [msg_sender env])
    by reflexivity.
  assert (Hlen : players_length c1 = players_length c + 1)
    by apply players_length_app.
  assert (Hpos : (0 <? players_length c + 1) = true)
    by (apply N.ltb_lt; lia).
  split; [|split].
  - unfold getNumberOfPlayers. sol_unfold. rewrite Hlen. reflexivity.
  - rewrite getPlayer_eval, Hlen, Hpos, Hp. unfold players_length.
    rewrite Nnat.Nat2N.id, nth_error_app2, Nat.sub_diag by lia.
    reflexivity.
  - intros i player. rewrite !getPlayer_eval, Hlen, Hpos, Hp.
    destruct (0 <? players_length c); [|discriminate].
    destruct (nth_error (s_players c) (N.to_nat i)) as [q|] eqn:Eq;
      [|discriminate].
    intros E. injection E as <-.
    rewrite nth_error_app1
      by (apply nth_error_Some; rewrite Eq; discriminate).
    rewrite Eq. reflexivity.
Qed.

Lemma enterRaffle_then_getPlayer_witness :
  getNumberOfPlayers (transact sample_raffle (sample_env, EnterRaffle))
  = Ok 5 (transact sample_raffle (sample_env, EnterRaffle)) []
  /\ getPlayer 4 (transact sample_raffle (sample_env, EnterRaffle))
     = Ok 11 (transact sample_raffle (sample_env, EnterRaffle)) [].
Proof.
  pose proof (enterRaffle_then_getPlayer sample_env sample_raffle
                (transact sample_raffle (sample_env, EnterRaffle))
                [Emit (RaffleEnter 11)] eq_refl) as H.
  exact (conj (proj1 H) (proj1 (proj2 H))).
Defined.

(** X14.  After a delivery that returns the raffle waits for players:
    [checkUpkeep] says no at any later time, every trigger is refused
    before it reaches the coordinator, and an entry that covers the fee is
    accepted and is the first of the new round. *)
Theorem after_delivery_raffle_waits env requestId randomWords c c' tr :
  fulfillRandomWords env requestId randomWords c = Ok tt c' tr ->
  (forall env' checkData,
     block_timestamp env <= block_timestamp env' ->
     checkUpkeep env' checkData c' = Ok (false, "0x0"%string) c' [])
  /\ (forall env' performData,
        exists e, performUpkeep env' performData c' = Revert e [])
  /\ (forall env',
        i_entranceFee c <= msg_value env' ->
        exists c'' tr',
          enterRaffle env' c' = Ok tt c'' tr'
          /\ s_players c'' = [msg_sender env']).
Proof.
  intros E.
  assert (Hfee : i_entranceFee c' = i_entranceFee c).
  { pose proof (transact_immutables c
                  (env, FulfillRandomWords requestId randomWords)) as H.
    unfold transact in H. cbn [dispatch fst snd] in H. rewrite E in H.
    apply H. }
  apply fulfillRandomWords_returns in E.
  destruct E as (word & rest & winner & _ & _ & _ & _ & Hp & Hs & Ht & _ & _).
  assert (Hlen : players_length c' = 0)
    by (unfold players_length; rewrite Hp; reflexivity).
  split; [|split].
  - intros env' checkData Hlater.
    rewrite checkUpkeep_eval, Hs, Ht, Hlen. simpl.
    replace (block_timestamp env' <? block_timestamp env) with false
      by (symmetry; apply N.ltb_ge; exact Hlater).
    rewrite andb_false_r. reflexivity.
  - intros env' performData.
    rewrite performUpkeep_eval, Hs, Hlen. simpl.
    destruct (negb (msg_value env' =? 0)); [eauto|].
    destruct (block_timestamp env' <? s_lastTimeStamp c'); simpl; [eauto|].
    rewrite andb_false_r. simpl. eauto.
  - intros env' Hpay.
    rewrite enterRaffle_eval, Hs, Hfee, Hp. simpl.
    replace (msg_value env' <? i_entranceFee c) with false
      by (symmetry; apply N.ltb_ge; exact Hpay).
    eauto.
Qed.

Lemma after_delivery_raffle_waits_witness :
  exists e,
    performUpkeep sample_env EmptyString
      (transact sample_calculating (sample_env, FulfillRandomWords 1 [5]))
    = Revert e [].
Proof.
  exact (proj1 (proj2
           (after_delivery_raffle_waits sample_env 1 [5] sample_calculating
              (transact sample_calculating
                 (sample_env, FulfillRandomWords 1 [5]))
              [CallValue 22 400; Emit (WinnerPicked 22)] eq_refl))
           sample_env EmptyString).
Defined.

(** * The front-end address book *)

Lemma includes_In (arr : list string) (x : string) :
  includes arr x = true <-> In x arr.
Proof.
  unfold includes. rewrite existsb_exists. split.
  - intros (y & Hy & E). apply String.eqb_eq in E. now subst.
  - intros H. exists x. split; [exact H | apply String.eqb_refl].
Qed.

Lemma assign_same obj key value : assign obj key value key = Some value.
Proof. unfold assign. now rewrite String.eqb_refl. Qed.

Lemma assign_other obj key value k :
  k <> key -> assign obj key value k = obj k.
Proof.
  intros H. unfold assign. apply String.eqb_neq in H. now rewrite H.
Qed.

(** What the update leaves under the chain id it was called for. *)
Lemma updateContractAddress_same raffle_address chainId currentAddress :
  updateContractAddress raffle_address chainId currentAddress chainId
  = Some match currentAddress chainId with
         | Some addresses =>
             if includes addresses raffle_address then addresses
             else addresses ++ [raffle_address]
         | None => [raffle_address]
         end.
Proof.
  unfold updateContractAddress.
  destruct (currentAddress chainId) as [addresses|] eqn:E.
  - destruct (includes addresses raffle_address); simpl.
    + exact E.
    + apply assign_same.
  - apply assign_same.
Qed.

Lemma updateContractAddress_includes raffle_address chainId currentAddress :
  exists addresses,
    updateContractAddress raffle_address chainId currentAddress chainId
    = Some addresses
    /\ includes addresses raffle_address = true.
Proof.
  rewrite updateContractAddress_same. eexists. split; [reflexivity|].
  destruct (currentAddress chainId) as [addresses|].
  - destruct (includes addresses raffle_address) eqn:E; [exact E|].
    apply includes_In, in_or_app. right. now left.
  - apply includes_In. now left.
Qed.

(** X15.  After [updateContractAddress] the chain id has an entry, the
    deployed address is in it, and the entries of all other chain ids are
    what they were. *)
Theorem updateContractAddress_registers raffle_address chainId
    currentAddress :
  (exists addresses,
     updateContractAddress raffle_address chainId currentAddress chainId
     = Some addresses
     /\ includes addresses raffle_address = true)
  /\ forall otherId,
       otherId <> chainId ->
       updateContractAddress raffle_address chainId currentAddress otherId
       = currentAddress otherId.
Proof.
  split; [apply updateContractAddress_includes|].
  intros otherId Hne. unfold updateContractAddress.
  destruct (currentAddress chainId) as [addresses|].
  - destruct (includes addresses raffle_address); simpl;
      [reflexivity | now apply assign_other].
  - now apply assign_other.
Qed.

Lemma updateContractAddress_registers_witness :
  updateContractAddress "0xcc" "31337" sample_book "5"%string
  = sample_book "5"%string.
Proof.
  apply (proj2 (updateContractAddress_registers "0xcc" "31337" sample_book)).
  discriminate.
Defined.

(** X16.  Running [updateContractAddress] again with the same address and
    chain id changes nothing: every chain id has the entry the first run
    left. *)
Theorem updateContractAddress_idempotent raffle_address chainId
    currentAddress key :
  updateContractAddress raffle_address chainId
    (updateContractAddress raffle_address chainId currentAddress) key
  = updateContractAddress raffle_address chainId currentAddress key.
Proof.
  destruct (updateContractAddress_includes raffle_address chainId
              currentAddress) as (addresses & Hsame & Hin).
  unfold updateContractAddress at 1. rewrite Hsame, Hin. reflexivity.
Qed.

(** X17.  [updateContractAddress] keeps the addresses a chain id already
    has, in their order, and appends the deployed address only when it is
    not among them: a list without repetitions stays without
    repetitions. *)
Theorem updateContractAddress_appends_once raffle_address chainId
    currentAddress addresses :
  currentAddress chainId = Some addresses ->
  (includes addresses raffle_address = true ->
   updateContractAddress raffle_address chainId currentAddress chainId
   = Some addresses)
  /\ (includes addresses raffle_address = false ->
      updateContractAddress raffle_address chainId currentAddress chainId
      = Some (addresses ++ [raffle_address]))
  /\ (NoDup addresses ->
      exists addresses',
        updateContractAddress raffle_address chainId currentAddress chainId
        = Some addresses'
        /\ NoDup addresses').
Proof.
  intros Hcur. rewrite updateContractAddress_same, Hcur.
  split; [|split].
  - intros ->. reflexivity.
  - intros ->. reflexivity.
  - intros Hnd. eexists. split; [reflexivity|].
    destruct (includes addresses raffle_address) eqn:E; [exact Hnd|].
    assert (Hnot : ~ In raffle_address addresses).
    { intros Hin. apply includes_In in Hin. congruence. }
    clear E Hcur. induction addresses as [|a rest IH]; simpl.
    + constructor; [intros [] | constructor].
    + inversion Hnd as [|? ? Ha Hrest]; subst. constructor.
      * rewrite in_app_iff. intros [H|[H|[]]]; [tauto|].
        apply Hnot. left. symmetry. exact H.
      * apply IH; [exact Hrest|]. intros H. apply Hnot. right. exact H.
Qed.

Lemma updateContractAddress_appends_once_witness :
  sample_book "5"%string = Some ["0xaa"%string; "0xbb"%string]
  /\ updateContractAddress "0xbb" "5" sample_book "5"%string
     = Some ["0xaa"%string; "0xbb"%string]
  /\ updateContractAddress "0xcc" "5" sample_book "5"%string
     = Some (["0xaa"%string; "0xbb"%string] ++ ["0xcc"%string]).
Proof.
  pose proof (updateContractAddress_appends_once "0xbb" "5" sample_book
                ["0xaa"%string; "0xbb"%string] eq_refl) as Hold.
  pose proof (updateContractAddress_appends_once "0xcc" "5" sample_book
                ["0xaa"%string; "0xbb"%string] eq_refl) as Hnew.
  exact (conj eq_refl
           (conj (proj1 Hold eq_refl) (proj1 (proj2 Hnew) eq_refl))).
Defined.
